(** * create-dmg: a shallow embedding of the disk-image packaging pipeline

    The development follows [build/darwin/create-dmg.ts]: the recursive size
    measurement [getDirectorySize], the capacity computation, the derivation of
    the staging path, and the orchestration [createDMG] with its two nested
    [try]/[finally] scopes, together with the command-line entry point.

    Modelling conventions.
    - JavaScript strings are modelled as [string] (sequences of 8-bit
      characters).
    - A byte count is a natural number.  What [fs.statSync] reports and what
      [+=] computes is a double: the nearest number with 53 significant
      bits, ties to even ([Double.round]).  The capacity arithmetic
      (division by 2^20, [Math.ceil], [+ 50], [Math.round]) is exact in
      doubles for every byte count up to 2^72, and such numbers are
      printed in decimal notation; it is written with exact rationals and
      integers.
    - The file system is a tree of directories, files and symbolic links
      that lead nowhere.  A path is walked the way the kernel walks it:
      component by component, and every component on the way has to be a
      directory ([Fs.reach]).  Hard links and symbolic links that lead
      somewhere are not part of the model: every path leads to a file or
      directory of its own.  Permissions are not part of the model either.
    - [execSync] runs an external tool; the tool is a field of the [Host]
      record.  The theorems quantify over it and say what they assume of
      it, if anything. *)

From Stdlib Require Import String Ascii List Bool Arith ZArith NArith Lia.
From Stdlib Require Import QArith Qround Permutation DecimalString.
Import ListNotations.

Local Close Scope Q_scope.
Local Open Scope list_scope.
Local Open Scope string_scope.

(** ** Strings *)

Module Str.

Definition slash : ascii := "/"%char.
Definition newline : ascii := "010"%char.
Definition dquote : ascii := "034"%char.

(** [`"${s}"`]: the argument wrapped in double quotes. *)
Definition quoted (s : string) : string :=
  String dquote (s ++ String dquote "").

(** [s.startsWith(p)]. *)
Fixpoint startsWith (p s : string) : bool :=
  match p, s with
  | "", _ => true
  | String a p', String b s' => Ascii.eqb a b && startsWith p' s'
  | String _ _, "" => false
  end.

(** [s.slice(n)]. *)
Fixpoint drop (n : nat) (s : string) : string :=
  match n, s with
  | O, _ => s
  | S n', String _ s' => drop n' s'
  | S _, "" => ""
  end.

(** [s.slice(0, n)]. *)
Fixpoint take (n : nat) (s : string) : string :=
  match n, s with
  | O, _ => ""
  | S n', String c s' => String c (take n' s')
  | S _, "" => ""
  end.

(** [s.indexOf(p)], with [None] for -1. *)
Fixpoint indexOf (p s : string) : option nat :=
  if startsWith p s then Some O
  else match s with
       | "" => None
       | String _ s' => option_map S (indexOf p s')
       end.

(** [s.replace(p, r)] for a string pattern [p]: only the first (leftmost)
    occurrence is replaced, and a string without occurrence is returned
    unchanged.  The replacement strings used by the program hold no [$]. *)
Fixpoint replace (p r s : string) : string :=
  if startsWith p s then r ++ drop (String.length p) s
  else match s with
       | "" => ""
       | String c s' => String c (replace p r s')
       end.

(** [s.charCodeAt(i) === CHAR_FORWARD_SLASH]. *)
Definition isSlashAt (s : string) (i : nat) : bool :=
  match get i s with
  | Some c => Ascii.eqb c slash
  | None => false
  end.

(** White space as [String.prototype.trim] sees it in the 8-bit range. *)
Definition isSpace (c : ascii) : bool :=
  let n := nat_of_ascii c in
  ((9 <=? n)%nat && (n <=? 13)%nat) || (n =? 32)%nat || (n =? 160)%nat.

Fixpoint trimStart (s : string) : string :=
  match s with
  | "" => ""
  | String c s' => if isSpace c then trimStart s' else s
  end.

Fixpoint trimEnd (s : string) : string :=
  match s with
  | "" => ""
  | String c s' =>
      match trimEnd s' with
      | "" => if isSpace c then "" else String c ""
      | t => String c t
      end
  end.

Definition trim (s : string) : string := trimEnd (trimStart s).

(** The longest prefix without a line feed: what [[^\n]+] consumes. *)
Fixpoint line (s : string) : string :=
  match s with
  | "" => ""
  | String c s' => if Ascii.eqb c newline then "" else String c (line s')
  end.

(** [s.match(/\/Volumes\/[^\n]+/)]: the leftmost position where the literal
    is followed by at least one character other than a line feed; the match
    runs to the end of that line. *)
Fixpoint matchVolumes (s : string) : option string :=
  let here :=
    if startsWith "/Volumes/" s then
      match line (drop 9 s) with
      | "" => None
      | rest => Some ("/Volumes/" ++ rest)
      end
    else None in
  match here with
  | Some m => Some m
  | None => match s with
            | "" => None
            | String _ s' => matchVolumes s'
            end
  end.

(** Template-literal rendering of an integral number. *)
Definition ofZ (z : Z) : string := NilZero.string_of_int (Z.to_int z).

(** Components between slashes, empty ones included. *)
Fixpoint split (s : string) : list string :=
  match s with
  | "" => [""]
  | String c s' =>
      if Ascii.eqb c slash then "" :: split s'
      else match split s' with
           | [] => [String c ""]
           | seg :: segs => String c seg :: segs
           end
  end.

End Str.

(** ** Paths: the POSIX flavour of Node's [path] module *)

Module Path.

(** The scanning loop of [path.dirname]:
    [for (let i = path.length - 1; i >= 1; --i)], looking for the last slash
    that is followed by a character other than a slash.  [None] stands for
    [end === -1]. *)
Fixpoint dirnameLoop (path : string) (i : nat) (matchedSlash : bool)
  : option nat :=
  match i with
  | O => None
  | S i' =>
      if Str.isSlashAt path i then
        if matchedSlash then dirnameLoop path i' matchedSlash
        else Some i
      else dirnameLoop path i' false
  end.

(** [path.dirname(path)]. *)
Definition dirname (path : string) : string :=
  match path with
  | "" => "."
  | _ =>
      let hasRoot := Str.isSlashAt path 0 in
      match dirnameLoop path (String.length path - 1) true with
      | None => if hasRoot then "/" else "."
      | Some e =>
          if hasRoot && (e =? 1)%nat then "//" else Str.take e path
      end
  end.

(** One step of [normalizeString]: empty and single-dot segments vanish, a
    double-dot segment removes the segment before it, or is kept when there
    is none to remove and the path is relative.  [res] is kept reversed. *)
Definition normalizeStep (allowAboveRoot : bool) (res : list string)
  (seg : string) : list string :=
  if String.eqb seg "" || String.eqb seg "." then res
  else if String.eqb seg ".." then
    match res with
    | last :: res' =>
        if String.eqb last ".." then seg :: res else res'
    | [] => if allowAboveRoot then [seg] else []
    end
  else seg :: res.

Definition normalizeString (allowAboveRoot : bool) (segs : list string)
  : list string :=
  rev (fold_left (normalizeStep allowAboveRoot) segs []).

(** [path.normalize(path)]. *)
Definition normalize (path : string) : string :=
  match path with
  | "" => "."
  | _ =>
      let isAbsolute := Str.isSlashAt path 0 in
      let trailingSeparator := Str.isSlashAt path (String.length path - 1) in
      let body :=
        String.concat "/" (normalizeString (negb isAbsolute) (Str.split path)) in
      match body with
      | "" => if isAbsolute then "/"
              else if trailingSeparator then "./" else "."
      | _ =>
          let body' := if trailingSeparator then body ++ "/" else body in
          if isAbsolute then "/" ++ body' else body'
      end
  end.

(** [path.join(a, b)]: empty arguments are skipped, the rest is joined with
    slashes and normalised. *)
Definition join (a b : string) : string :=
  match a, b with
  | "", "" => "."
  | "", _ => normalize b
  | _, "" => normalize a
  | _, _ => normalize (a ++ "/" ++ b)
  end.

End Path.

(** ** Numbers *)

Module Double.

(** The distance between neighbouring doubles around [n]: 1 below 2^53,
    then doubling with every binary order of magnitude. *)
Definition ulp (n : N) : N := (2 ^ (N.log2 n - 52))%N.

(** The multiple of [u] nearest to [n]; of two that are equally near, the
    even multiple. *)
Definition nearest (u n : N) : N :=
  let q := (n / u)%N in
  let r := (n mod u)%N in
  if (2 * r <? u)%N then (q * u)%N
  else if (u <? 2 * r)%N then ((q + 1) * u)%N
  else if N.even q then (q * u)%N
  else ((q + 1) * u)%N.

(** The double nearest to the natural number [n], ties to even: the value
    of [n] as a JavaScript number. *)
Definition round (n : N) : N := nearest (ulp n) n.

(** [x + y] on two such numbers. *)
Definition add (x y : N) : N := round (x + y).

End Double.

(** ** The file system *)

Module Fs.

(** An entry of the file system: a regular file with its size in bytes, a
    directory with its own size and its entries in [fs.readdirSync] order,
    or a symbolic link whose target does not exist.  Pipes, sockets and
    devices are not part of the model. *)
#[local] Unset Elimination Schemes.
Inductive node : Type :=
| File (size : N)
| Dir (size : N) (entries : list (string * node))
| Dangling.
#[local] Set Elimination Schemes.

Inductive errno : Type := ENOENT | ENOTDIR | EISDIR | EEXIST.

(** [stats.isDirectory()]. *)
Definition isDirectory (stats : node) : bool :=
  match stats with
  | Dir _ _ => true
  | File _ | Dangling => false
  end.

(** [stats.size]: the size in bytes as a number. *)
Definition size (stats : node) : N :=
  match stats with
  | File sz => Double.round sz
  | Dir sz _ => Double.round sz
  | Dangling => 0%N
  end.

(** The error of [stat(2)] on an entry, if any: a symbolic link is
    followed, and one that leads nowhere is reported as missing. *)
Definition statError (entry : node) : option errno :=
  match entry with
  | Dangling => Some ENOENT
  | File _ | Dir _ _ => None
  end.

Fixpoint find (name : string) (es : list (string * node)) : option node :=
  match es with
  | [] => None
  | (n, child) :: es' => if String.eqb n name then Some child else find name es'
  end.

Definition del (name : string) (es : list (string * node))
  : list (string * node) :=
  filter (fun e => negb (String.eqb (fst e) name)) es.

Fixpoint put (name : string) (child : node) (es : list (string * node))
  : list (string * node) :=
  match es with
  | [] => [(name, child)]
  | (n, c) :: es' =>
      if String.eqb n name then (name, child) :: del name es'
      else (n, c) :: put name child es'
  end.

(** The entry at a location: the names from the root down. *)
Fixpoint lookup (n : node) (p : list string) : option node :=
  match p with
  | [] => Some n
  | c :: p' =>
      match n with
      | File _ | Dangling => None
      | Dir _ es =>
          match find c es with
          | Some child => lookup child p'
          | None => None
          end
      end
  end.

(** [unlink(2)] at a location: removes an entry that is not a directory. *)
Fixpoint unlink (n : node) (p : list string) : errno + node :=
  match p with
  | [] => inl EISDIR
  | c :: p' =>
      match n with
      | File _ => inl ENOTDIR
      | Dangling => inl ENOENT
      | Dir sz es =>
          match find c es with
          | None => inl ENOENT
          | Some child =>
              match p' with
              | [] =>
                  if isDirectory child then inl EISDIR
                  else inr (Dir sz (del c es))
              | _ :: _ =>
                  match unlink child p' with
                  | inr child' => inr (Dir sz (put c child' es))
                  | inl e => inl e
                  end
              end
          end
      end
  end.

(** Writing an entry whose parent directory exists: what [mkdir(2)] does,
    and what a tool does when it produces an output file. *)
Fixpoint writeAt (n : node) (p : list string) (content : node) : errno + node :=
  match p with
  | [] => inl EISDIR
  | c :: p' =>
      match n with
      | File _ => inl ENOTDIR
      | Dangling => inl ENOENT
      | Dir sz es =>
          match p' with
          | [] => inr (Dir sz (put c content es))
          | _ :: _ =>
              match find c es with
              | None => inl ENOENT
              | Some child =>
                  match writeAt child p' content with
                  | inr child' => inr (Dir sz (put c child' es))
                  | inl e => inl e
                  end
              end
          end
      end
  end.

(** Where the walk of a path starts: at the root, or at the working
    directory when the path is relative. *)
Definition base (cwd : list string) (path : string) : list string :=
  if Str.isSlashAt path 0 then [] else cwd.

(** The components of a path, those of the working directory first when
    the path is relative. *)
Definition segments (cwd : list string) (path : string) : list string :=
  (base cwd path ++ Str.split path)%list.

(** Where a path leads when it can be walked: empty and single-dot
    components stay where they are, a double-dot component goes back to the
    parent, a name goes down.  The empty path names nothing. *)
Definition resolve (cwd : list string) (path : string)
  : option (list string) :=
  match path with
  | "" => None
  | _ => Some (Path.normalizeString false (segments cwd path))
  end.

(** The walk of the kernel over the components [segs], from the location
    whose names are [res] in reverse: each component is taken from a
    directory.  A file on the way is [ENOTDIR], a missing entry or a
    symbolic link that leads nowhere is [ENOENT].  The entry the last
    component names is not looked at. *)
Fixpoint reach (root : node) (res : list string) (segs : list string)
  : errno + list string :=
  match segs with
  | [] => inr (rev res)
  | seg :: segs' =>
      match lookup root (rev res) with
      | Some (Dir _ _) => reach root (Path.normalizeStep false res seg) segs'
      | Some (File _) => inl ENOTDIR
      | Some Dangling | None => inl ENOENT
      end
  end.

(** The location a path string names, for the kernel. *)
Definition locate (cwd : list string) (root : node) (path : string)
  : errno + list string :=
  match path with
  | "" => inl ENOENT
  | _ => reach root [] (segments cwd path)
  end.

(** [stat(2)]: the entry a path leads to, symbolic links followed. *)
Definition access (cwd : list string) (root : node) (path : string)
  : errno + node :=
  match locate cwd root path with
  | inl code => inl code
  | inr p =>
      match lookup root p with
      | Some Dangling | None => inl ENOENT
      | Some found => inr found
      end
  end.

(** What [fs.existsSync] and [fs.statSync] see at a path. *)
Definition stat (cwd : list string) (root : node) (path : string)
  : option node :=
  match access cwd root path with
  | inr found => Some found
  | inl _ => None
  end.

(** The error code of a failed [stat(2)]. *)
Definition errnoAt (cwd : list string) (root : node) (path : string)
  : errno :=
  match access cwd root path with
  | inl code => code
  | inr _ => ENOENT
  end.

(** [mkdir(2)] at a location that has been walked to, as
    [fs.mkdirSync(_, { recursive: true })] uses it: a directory that is
    there is left as it is, a missing one is made; [last] tells whether
    the location is the one the whole path names. *)
Definition mkdirAt (root : node) (p : list string) (last : bool)
  : errno + node :=
  match lookup root p with
  | Some (Dir _ _) => inr root
  | Some (File _) => inl (if last then EEXIST else ENOTDIR)
  | Some Dangling => inl ENOENT
  | None => writeAt root p (Dir 0 [])
  end.

(** The walk of [mkdir -p] over the components [segs], from the directory
    whose names are [res] in reverse: every location the walk comes to is
    made a directory unless it is one. *)
Fixpoint mkdirs (root : node) (res : list string) (segs : list string)
  : errno + node :=
  match segs with
  | [] => inr root
  | seg :: segs' =>
      let res' := Path.normalizeStep false res seg in
      match mkdirAt root (rev res') (match segs' with
                                     | [] => true
                                     | _ :: _ => false
                                     end) with
      | inr root' => mkdirs root' res' segs'
      | inl e => inl e
      end
  end.

(** [mkdir -p] on a path string: the walk starts at the root, or at the
    working directory, which has to be there. *)
Definition mkdirp (cwd : list string) (root : node) (path : string)
  : errno + node :=
  match path with
  | "" => inl ENOENT
  | _ =>
      match reach root [] (base cwd path ++ ["."]) with
      | inr start => mkdirs root (rev start) (Str.split path)
      | inl code => inl code
      end
  end.

(** One iteration of the loop of [getDirectorySize]: [stats] are the stats
    of the entry, [recur] is the recursive call.  A failure carries the
    names from the directory down to the entry at which it happened. *)
Definition addEntry (recur : node -> errno * list string + N)
  (totalSize : errno * list string + N) (entry : string * node)
  : errno * list string + N :=
  match totalSize with
  | inl e => inl e
  | inr total =>
      let file := fst entry in
      let stats := snd entry in
      match statError stats with
      | Some code => inl (code, [file])
      | None =>
          if isDirectory stats then
            match recur stats with
            | inr sub => inr (Double.add total sub)
            | inl (code, below) => inl (code, file :: below)
            end
          else inr (Double.add total (size stats))
      end
  end.

(** [getDirectorySize] on the tree its argument names: [fs.readdirSync]
    fails on anything but a directory; the entries are visited in listing
    order, directories by recursion. *)
Fixpoint getDirectorySize (dir : node) : errno * list string + N :=
  match dir with
  | File _ => inl (ENOTDIR, [])
  | Dangling => inl (ENOENT, [])
  | Dir _ files => fold_left (addEntry getDirectorySize) files (inr 0%N)
  end.

End Fs.

(** ** Effects: a file system threaded through, observable events written
    out, and exceptions *)

Inductive error : Type :=
| AppNotFound (appPath : string)
| MountPointNotParsed
| ExecFailed (command : string)
| FsFailed (code : Fs.errno) (path : string).

Inductive event : Type :=
| ConsoleLog (line : string)
| ConsoleError (line : string) (err : error)
| ExecSync (command : string)
| UnlinkSync (path : string)
| MkdirSync (path : string).

Inductive result (A : Type) : Type :=
| Ok (value : A)
| Throw (err : error).
Arguments Ok {A} value.
Arguments Throw {A} err.

Record outcome (A : Type) : Type := Outcome {
  res : result A;
  final : Fs.node;
  events : list event
}.
Arguments Outcome {A} res final events.
Arguments res {A} o.
Arguments final {A} o.
Arguments events {A} o.

Definition M (A : Type) : Type := Fs.node -> outcome A.

Definition ret {A} (a : A) : M A := fun fs => Outcome (Ok a) fs [].

Definition throw {A} (e : error) : M A := fun fs => Outcome (Throw e) fs [].

Definition bind {A B} (m : M A) (k : A -> M B) : M B := fun fs =>
  let o := m fs in
  match res o with
  | Ok a =>
      let o' := k a (final o) in
      Outcome (res o') (final o') (events o ++ events o')%list
  | Throw e => Outcome (Throw e) (final o) (events o)
  end.

(** [try { body } finally { handler }]: the handler always runs; when it
    throws, its exception replaces the outcome of the body. *)
Definition tryFinally {A} (body : M A) (handler : M unit) : M A := fun fs =>
  let o := body fs in
  let h := handler (final o) in
  Outcome (match res h with
           | Ok _ => res o
           | Throw e => Throw e
           end)
          (final h) (events o ++ events h)%list.

Definition emit (e : event) : M unit := fun fs => Outcome (Ok tt) fs [e].

Declare Scope js_scope.
Delimit Scope js_scope with js.
Notation "x <- m ;; k" := (bind m (fun x => k))
  (at level 100, m at next level, right associativity) : js_scope.
Notation "m ;; k" := (bind m (fun _ => k))
  (at level 100, right associativity) : js_scope.
Notation "'when' b 'then' m" := (if b then m else ret tt)
  (at level 100, b at level 0, right associativity) : js_scope.
Local Open Scope js_scope.

(** ** The host: everything the script takes from its surroundings *)

Record Host : Type := {
  (** the working directory of the process *)
  cwd : list string;
  (** [product.nameLong] as read from [product.json] *)
  nameLong : option string;
  (** an external command: its standard output, or [None] for a non-zero
      exit status, and what it did to the file system *)
  tool : string -> Fs.node -> option string * Fs.node
}.

Section Script.

Variable host : Host.

Definition consoleLog (line : string) : M unit := emit (ConsoleLog line).

Definition existsSync (path : string) : M bool := fun fs =>
  Outcome (Ok (match Fs.stat (cwd host) fs path with
               | Some _ => true
               | None => false
               end)) fs [].

Definition statSync (path : string) : M Fs.node := fun fs =>
  match Fs.stat (cwd host) fs path with
  | Some stats => Outcome (Ok stats) fs []
  | None => Outcome (Throw (FsFailed (Fs.errnoAt (cwd host) fs path) path)) fs []
  end.

Definition unlinkSync (path : string) : M unit := fun fs =>
  match Fs.locate (cwd host) fs path with
  | inl code => Outcome (Throw (FsFailed code path)) fs []
  | inr p =>
      match Fs.unlink fs p with
      | inr fs' => Outcome (Ok tt) fs' [UnlinkSync path]
      | inl code => Outcome (Throw (FsFailed code path)) fs []
      end
  end.

(** [fs.mkdirSync(path, { recursive: true })]. *)
Definition mkdirSync (path : string) : M unit := fun fs =>
  match Fs.mkdirp (cwd host) fs path with
  | inr fs' => Outcome (Ok tt) fs' [MkdirSync path]
  | inl code => Outcome (Throw (FsFailed code path)) fs []
  end.

(** [execSync(command)]: throws on a non-zero exit status. *)
Definition execSync (command : string) : M string := fun fs =>
  match tool host command fs with
  | (Some stdout, fs') => Outcome (Ok stdout) fs' [ExecSync command]
  | (None, fs') => Outcome (Throw (ExecFailed command)) fs' [ExecSync command]
  end.

(** The call [getDirectorySize(dirPath)] on a path.  The path of a failed
    call is [dirPath] joined with the names down to the entry, as the
    recursion joins them with [path.join]. *)
Definition getDirectorySizeAt (dirPath : string) : M N := fun fs =>
  match Fs.stat (cwd host) fs dirPath with
  | None =>
      Outcome (Throw (FsFailed (Fs.errnoAt (cwd host) fs dirPath) dirPath)) fs []
  | Some dir =>
      match Fs.getDirectorySize dir with
      | inr totalSize => Outcome (Ok totalSize) fs []
      | inl (code, below) =>
          Outcome (Throw (FsFailed code (fold_left Path.join below dirPath)))
                  fs []
      end
  end.

(** [appSize / (1024 * 1024)]. *)
Definition megabytes (bytes : N) : Q :=
  (inject_Z (Z.of_N bytes) / inject_Z (1024 * 1024))%Q.

(** [Math.ceil(appSize / (1024 * 1024)) + 50]. *)
Definition requiredSizeMB (appSize : N) : Z :=
  (Qceiling (megabytes appSize) + 50)%Z.

(** [Math.round(x)]: the nearest integer, halves upwards. *)
Definition round (x : Q) : Z := Qfloor (x + (1 # 2))%Q.

(** [product.nameLong || 'Code - OSS']. *)
Definition volumeName : string :=
  match nameLong host with
  | Some "" | None => "Code - OSS"
  | Some name => name
  end.

(** [outputPath.replace('.dmg', '-temp.dmg')]. *)
Definition tempDmgPath (outputPath : string) : string :=
  Str.replace ".dmg" "-temp.dmg" outputPath.

Definition createCommand (appPath : string) (sizeMB : Z) (tempPath : string)
  : string :=
  "hdiutil create -srcfolder " ++ Str.quoted appPath ++
  " -volname " ++ Str.quoted volumeName ++
  " -fs HFS+ -fsargs " ++ Str.quoted "-c c=64,a=16,e=16" ++
  " -format UDRW -size " ++ Str.ofZ sizeMB ++ "m " ++ Str.quoted tempPath.

Definition attachCommand (tempPath : string) : string :=
  "hdiutil attach " ++ Str.quoted tempPath ++
  " -readwrite -noverify -noautoopen".

Definition linkCommand (applicationsLink : string) : string :=
  "ln -s /Applications " ++ Str.quoted applicationsLink.

Definition detachCommand (mountPoint : string) : string :=
  "hdiutil detach " ++ Str.quoted mountPoint ++ " -quiet".

Definition convertCommand (tempPath outputPath : string) : string :=
  "hdiutil convert " ++ Str.quoted tempPath ++
  " -format UDZO -imagekey zlib-level=9 -o " ++ Str.quoted outputPath.

(** Lines 90-95: the body of the inner [try]. *)
Definition decorate (mountPoint : string) : M unit :=
  let applicationsLink := Path.join mountPoint "Applications" in
  present <- existsSync applicationsLink ;;
  if negb present then
    execSync (linkCommand applicationsLink) ;;
    consoleLog "Added Applications symlink"
  else ret tt.

(** Lines 97-99: the inner [finally]. *)
Definition detach (mountPoint : string) : M unit :=
  consoleLog "Unmounting..." ;;
  execSync (detachCommand mountPoint) ;;
  ret tt.

(** Lines 102-113: conversion and the report of the final size. *)
Definition convert (tempPath outputPath : string) : M unit :=
  consoleLog "Converting to compressed DMG..." ;;
  execSync (convertCommand tempPath outputPath) ;;
  consoleLog ("DMG created successfully: " ++ outputPath) ;;
  finalStats <- statSync outputPath ;;
  consoleLog ("Final DMG size: " ++
              Str.ofZ (round (megabytes (Fs.size finalStats))) ++ "MB").

(** Lines 70-113: the body of the outer [try]. *)
Definition build (appPath outputPath : string) (sizeMB : Z) : M unit :=
  let tempPath := tempDmgPath outputPath in
  consoleLog "Creating temporary DMG..." ;;
  execSync (createCommand appPath sizeMB tempPath) ;;
  consoleLog "Mounting DMG to add Applications symlink..." ;;
  mountOutput <- execSync (attachCommand tempPath) ;;
  match Str.matchVolumes mountOutput with
  | None => throw MountPointNotParsed
  | Some mountMatch =>
      let mountPoint := Str.trim mountMatch in
      consoleLog ("Mounted at: " ++ mountPoint) ;;
      tryFinally (decorate mountPoint) (detach mountPoint) ;;
      convert tempPath outputPath
  end.

(** [if (fs.existsSync(path)) { fs.unlinkSync(path); }]: the statement the
    script writes out at lines 62-64, 65-67 and 116-118. *)
Definition unlinkIfExists (path : string) : M unit :=
  present <- existsSync path ;;
  when present then unlinkSync path.

(** Lines 115-118: the outer [finally]. *)
Definition cleanup (outputPath : string) : M unit :=
  unlinkIfExists (tempDmgPath outputPath).

(** Lines 55-59. *)
Definition ensureOutputDir (outputPath : string) : M unit :=
  let outputDir := Path.dirname outputPath in
  present <- existsSync outputDir ;;
  when (negb present) then mkdirSync outputDir.

(** Lines 61-67. *)
Definition clearStale (outputPath : string) : M unit :=
  unlinkIfExists (tempDmgPath outputPath) ;;
  unlinkIfExists outputPath.

(** Lines 43-46. *)
Definition validate (appPath : string) : M unit :=
  present <- existsSync appPath ;;
  when (negb present) then throw (AppNotFound appPath).

(** Lines 48-53: the planned capacity in megabytes. *)
Definition plan (appPath : string) : M Z :=
  appSize <- getDirectorySizeAt appPath ;;
  let sizeMB := requiredSizeMB appSize in
  consoleLog ("App size: " ++ Str.ofZ (round (megabytes appSize)) ++ "MB") ;;
  consoleLog ("Creating DMG with " ++ Str.ofZ sizeMB ++ "MB capacity...") ;;
  ret sizeMB.

(** [createDMG(appPath, outputPath)].  The two unused locals [appName] and
    [dmgName] are left out. *)
Definition createDMG (appPath outputPath : string) : M unit :=
  validate appPath ;;
  sizeMB <- plan appPath ;;
  ensureOutputDir outputPath ;;
  clearStale outputPath ;;
  tryFinally (build appPath outputPath sizeMB) (cleanup outputPath).

(** The command-line entry point, run on [process.argv.slice(2)]: the exit
    status of the process together with what it did. *)
Definition usage : list event :=
  [ConsoleLog "Usage: create-dmg.ts <app-path> <output-dmg-path>";
   ConsoleLog "";
   ConsoleLog "Example:";
   ConsoleLog ("  node build/darwin/create-dmg.ts " ++
               Str.quoted ".build/electron/Code - OSS.app" ++ " " ++
               Str.quoted ".build/Code-OSS-darwin-arm64.dmg")].

Definition main (args : list string) (fs : Fs.node)
  : Z * Fs.node * list event :=
  match args with
  | appPath :: outputPath :: _ =>
      let o := createDMG appPath outputPath fs in
      match res o with
      | Ok _ => (0%Z, final o, events o)
      | Throw err =>
          (1%Z, final o,
           (events o ++ [ConsoleError "Failed to create DMG:" err])%list)
      end
  | _ => (1%Z, fs, usage)
  end.

End Script.

(** ** A simulated disk-image utility, to run the script on concrete inputs *)

Module Sim.

Definition orElse (fs : Fs.node) (r : Fs.errno + Fs.node)
  : option string * Fs.node :=
  match r with
  | inr fs' => (Some "", fs')
  | inl _ => (None, fs)
  end.

(** What [hdiutil attach] prints: one line per device node. *)
Definition attachOutput : string :=
  "/dev/disk4   GUID_partition_scheme" ++ String Str.newline "" ++
  "/dev/disk4s1 Apple_HFS  /Volumes/Code - OSS" ++ String Str.newline "".

(** The utility working on the staging path [temp] and the output path
    [out] (both as locations); commands that start with [failing] exit
    with a non-zero status and do nothing.  The shortcut that [ln -s]
    makes is represented by a directory at its path: something that
    [fs.existsSync] finds there. *)
Definition hdiutil (failing : string) (temp out : list string)
  (command : string) (fs : Fs.node) : option string * Fs.node :=
  if negb (String.eqb failing "") && Str.startsWith failing command then
    (None, fs)
  else if Str.startsWith "hdiutil create" command then
    orElse fs (Fs.writeAt fs temp (Fs.File 900000000))
  else if Str.startsWith "hdiutil attach" command then
    match Fs.writeAt fs ["Volumes"; "Code - OSS"] (Fs.Dir 0 []) with
    | inr fs' => (Some attachOutput, fs')
    | inl _ => (None, fs)
    end
  else if Str.startsWith "ln -s" command then
    orElse fs (Fs.writeAt fs ["Volumes"; "Code - OSS"; "Applications"]
                 (Fs.Dir 0 []))
  else if Str.startsWith "hdiutil detach" command then
    orElse fs (Fs.writeAt fs ["Volumes"] (Fs.Dir 0 []))
  else if Str.startsWith "hdiutil convert" command then
    orElse fs (Fs.writeAt fs out (Fs.File 300000000))
  else (None, fs).

(** A bundle measuring exactly 800 MB. *)
Definition bundle : Fs.node :=
  Fs.Dir 96
    [("Contents",
      Fs.Dir 128
        [("Info.plist", Fs.File 2048);
         ("MacOS", Fs.Dir 64 [("Code", Fs.File 838000000)]);
         ("Resources", Fs.Dir 64 [("app.asar", Fs.File 858752)])])].

(** A bundle in which a symbolic link leads nowhere. *)
Definition brokenBundle : Fs.node :=
  Fs.Dir 96
    [("Contents",
      Fs.Dir 128
        [("Info.plist", Fs.File 2048);
         ("Frameworks", Fs.Dir 64 [("Current", Fs.Dangling)]);
         ("MacOS", Fs.Dir 64 [("Code", Fs.File 838000000)])])].

(** A disk with the bundle built, a final image and a staging image left
    behind by an earlier run. *)
Definition disk : Fs.node :=
  Fs.Dir 0
    [("Applications", Fs.Dir 0 []);
     ("Volumes", Fs.Dir 0 []);
     ("work",
      Fs.Dir 0
        [(".build",
          Fs.Dir 0
            [("Code.app", bundle);
             ("Code.dmg", Fs.File 123);
             ("Code-temp.dmg", Fs.File 456)])])].

(** The disk with the staging image attached. *)
Definition attached : Fs.node :=
  match Fs.writeAt disk ["Volumes"; "Code - OSS"] (Fs.Dir 0 []) with
  | inr fs => fs
  | inl _ => disk
  end.

Definition machine (failing : string) : Host :=
  {| cwd := ["work"];
     nameLong := None;
     tool := hdiutil failing [ "work"; ".build"; "Code-temp.dmg" ]
               [ "work"; ".build"; "Code.dmg" ] |}.

(** The same utility for any staging and output path, producing [image] as
    the staging image. *)
Definition imageUtility (image : Fs.node) (failing : string)
  (temp out : list string) (command : string) (fs : Fs.node)
  : option string * Fs.node :=
  if negb (String.eqb failing "") && Str.startsWith failing command then
    (None, fs)
  else if Str.startsWith "hdiutil create" command then
    orElse fs (Fs.writeAt fs temp image)
  else if Str.startsWith "hdiutil attach" command then
    match Fs.writeAt fs ["Volumes"; "Code - OSS"] (Fs.Dir 0 []) with
    | inr fs' => (Some attachOutput, fs')
    | inl _ => (None, fs)
    end
  else if Str.startsWith "ln -s" command then
    orElse fs (Fs.writeAt fs ["Volumes"; "Code - OSS"; "Applications"]
                 (Fs.Dir 0 []))
  else if Str.startsWith "hdiutil detach" command then
    orElse fs (Fs.writeAt fs ["Volumes"] (Fs.Dir 0 []))
  else if Str.startsWith "hdiutil convert" command then
    orElse fs (Fs.writeAt fs out (Fs.File 300000000))
  else (None, fs).

(** A machine on which no command can be run. *)
Definition broken : Host :=
  {| cwd := ["work"];
     nameLong := Some "";
     tool := fun _ fs => (None, fs) |}.

Definition machineAt (image : Fs.node) (failing : string)
  (temp out : list string) : Host :=
  {| cwd := ["work"];
     nameLong := Some "Reditor";
     tool := imageUtility image failing temp out |}.

End Sim.

(** * Notions used in the statements *)

(** No character of the string is a slash. *)
Fixpoint slashFree (t : string) : bool :=
  match t with
  | "" => true
  | String c t' => negb (Ascii.eqb c Str.slash) && slashFree t'
  end.

(** The part of [path.dirname] that a slash-free tail leaves to decide. *)
Definition dirnameOfStem (s : string) : string :=
  match String.length s with
  | O => "."
  | S m =>
      match Path.dirnameLoop s m false with
      | None => if Str.isSlashAt s 0 then "/" else "."
      | Some e => if Str.isSlashAt s 0 && (e =? 1)%nat then "//"
                  else Str.take e s
      end
  end.

(** Paths that part ways at some component. *)
Fixpoint diverge (p q : list string) : bool :=
  match p, q with
  | c :: p', d :: q' => if String.eqb c d then diverge p' q' else true
  | _, _ => false
  end.

(** Every event a computation writes satisfies [P]. *)
Definition emits {A} (P : event -> Prop) (m : M A) : Prop :=
  forall fs, Forall P (events (m fs)).

(** The events written before the outer [try] is entered. *)
Definition preludeEvent (e : event) : Prop :=
  match e with
  | ConsoleLog line =>
      Str.startsWith "App size: " line = true \/
      Str.startsWith "Creating DMG with " line = true
  | MkdirSync _ | UnlinkSync _ => True
  | ConsoleError _ _ | ExecSync _ => False
  end.

(** Not the log line that announces the mount point. *)
Definition notMounted (e : event) : Prop :=
  match e with
  | ConsoleLog line => Str.startsWith "Mounted at: " line = false
  | _ => True
  end.

(** Not a failure report of the entry point. *)
Definition notReport (e : event) : Prop :=
  match e with
  | ConsoleError _ _ => False
  | _ => True
  end.

(** The sizes in bytes of the regular files reachable from a node, as the
    specification counts them: a directory contributes its contents and
    nothing of its own. *)
Fixpoint regularFiles (t : Fs.node) : list N :=
  match t with
  | Fs.File sz => [sz]
  | Fs.Dir _ files => flat_map (fun entry => regularFiles (snd entry)) files
  | Fs.Dangling => []
  end.

(** Every entry below the node can be read by [fs.statSync]: no symbolic
    link leads nowhere. *)
Fixpoint readable (t : Fs.node) : bool :=
  match t with
  | Fs.File _ => true
  | Fs.Dir _ files => forallb (fun entry => readable (snd entry)) files
  | Fs.Dangling => false
  end.

(** A number that a double holds exactly. *)
Definition exact (n : N) : Prop := Double.round n = n.

(** The location is a directory. *)
Definition isDir (root : Fs.node) (p : list string) : bool :=
  match Fs.lookup root p with
  | Some (Fs.Dir _ _) => true
  | _ => false
  end.

(** What the kind of an entry is: nothing, a file, a directory, a link
    that leads nowhere. *)
Definition kind (found : option Fs.node) : option (option bool) :=
  match found with
  | None => None
  | Some (Fs.File _) => Some (Some false)
  | Some (Fs.Dir _ _) => Some (Some true)
  | Some Fs.Dangling => Some None
  end.

(** A component that is the name of an entry. *)
Definition isName (seg : string) : bool :=
  negb (String.eqb seg "" || String.eqb seg "." || String.eqb seg "..").

(** Components that only go down: no double dot among them, and a name at
    the end. *)
Definition descending (segs : list string) : bool :=
  forallb (fun seg => negb (String.eqb seg "..")) segs &&
  isName (last segs "").




Definition total (sizes : list N) : N := fold_right N.add 0%N sizes.

(** [Size(T)], the sum of the file sizes over all regular files reachable
    from [T]. *)
Definition Size (t : Fs.node) : N := total (regularFiles t).

(** The same tree listed in another order: at every directory the entries
    may come in any order. *)
Inductive reordered : Fs.node -> Fs.node -> Prop :=
| reordered_file (sz : N) : reordered (Fs.File sz) (Fs.File sz)
| reordered_link : reordered Fs.Dangling Fs.Dangling
| reordered_dir (sz : N) (files files' : list (string * Fs.node)) :
    reorderedEntries files files' ->
    reordered (Fs.Dir sz files) (Fs.Dir sz files')
with reorderedEntries :
  list (string * Fs.node) -> list (string * Fs.node) -> Prop :=
| reordered_nil : reorderedEntries [] []
| reordered_skip (name : string) (t t' : Fs.node)
    (files files' : list (string * Fs.node)) :
    reordered t t' -> reorderedEntries files files' ->
    reorderedEntries ((name, t) :: files) ((name, t') :: files')
| reordered_swap (x y : string * Fs.node) (files : list (string * Fs.node)) :
    reorderedEntries (y :: x :: files) (x :: y :: files)
| reordered_trans (files files' files'' : list (string * Fs.node)) :
    reorderedEntries files files' -> reorderedEntries files' files'' ->
    reorderedEntries files files''.

Scheme reordered_mut := Minimality for reordered Sort Prop
  with reorderedEntries_mut := Minimality for reorderedEntries Sort Prop.

(** From a state with [P], the computation ends with a result and a state
    related by [Q]. *)
Definition hoare {A} (P : Fs.node -> Prop) (m : M A)
  (Q : result A -> Fs.node -> Prop) : Prop :=
  forall fs, P fs -> Q (res (m fs)) (final (m fs)).

(** The failures of the stages from staging to unmounting: an unparsed
    mount point, or a failed command other than the conversion. *)
Definition failedBeforeConversion {A} (r : result A) : Prop :=
  r = Throw MountPointNotParsed \/
  exists command,
    r = Throw (ExecFailed command) /\
    Str.startsWith "hdiutil convert" command = false.

(** Nothing exists at the output path. *)
Definition absent (host : Host) (outputPath : string) (fs : Fs.node) : Prop :=
  Fs.stat (cwd host) fs outputPath = None.


(** No character of the string is a line feed. *)
Fixpoint noNewline (s : string) : bool :=
  match s with
  | "" => true
  | String c s' => negb (Ascii.eqb c Str.newline) && noNewline s'
  end.

(** Not the run of a conversion command. *)
Definition notConversion (e : event) : Prop :=
  match e with
  | ExecSync command => Str.startsWith "hdiutil convert" command = false
  | _ => True
  end.

(** The command is a conversion. *)
Definition isConversion (command : string) : bool :=
  Str.startsWith "hdiutil convert" command.

(** What a run of [createDMG] on [outputPath] may do: log, run the disk
    image utility or [ln -s /Applications], remove the staging path or the
    output path, create the directory of the output path. *)
Definition ownEvent (outputPath : string) (e : event) : Prop :=
  match e with
  | ConsoleLog _ => True
  | ConsoleError _ _ => False
  | ExecSync command =>
      Str.startsWith "hdiutil create " command = true \/
      Str.startsWith "hdiutil attach " command = true \/
      Str.startsWith "hdiutil detach " command = true \/
      Str.startsWith "hdiutil convert " command = true \/
      Str.startsWith "ln -s /Applications " command = true
  | UnlinkSync path => path = tempDmgPath outputPath \/ path = outputPath
  | MkdirSync path => path = Path.dirname outputPath
  end.

(** * The model on documented inputs *)

(** The examples of the Node documentation for [path.dirname],
    [path.normalize] and [path.join]. *)
Example dirname_documented :
  Path.dirname "/foo/bar/baz/asdf/quux" = "/foo/bar/baz/asdf".
Proof. reflexivity. Qed.

Example normalize_documented :
  Path.normalize "/foo/bar//baz/asdf/quux/.." = "/foo/bar/baz/asdf".
Proof. reflexivity. Qed.

Example join_documented :
  Path.join "/foo/bar" "./baz" = "/foo/bar/baz".
Proof. reflexivity. Qed.

(** Doubles: every integer up to 2^53 is one; above, every second, then
    every fourth, with ties going to the even neighbour. *)
Example doubles_documented :
  Double.round 838860800 = 838860800%N /\
  Double.round (2 ^ 53 + 1) = (2 ^ 53)%N /\
  Double.round (2 ^ 53 + 2) = (2 ^ 53 + 2)%N /\
  Double.round (2 ^ 53 + 3) = (2 ^ 53 + 4)%N /\
  Double.round (2 ^ 54 + 2) = (2 ^ 54)%N /\
  Double.round (2 ^ 54 + 6) = (2 ^ 54 + 8)%N /\
  Double.add (2 ^ 53) 1 = (2 ^ 53)%N.
Proof. repeat split. Qed.

(** The walk of the kernel on the simulated disk, from the working
    directory [/work]: a double dot needs the directory it leaves, a
    trailing slash needs a directory, and the root is its own parent. *)
Example walk_documented :
  let stat := Fs.stat ["work"] Sim.disk in
  stat ".build/Code.dmg" = Some (Fs.File 123) /\
  stat ".build/Code.dmg/" = None /\
  stat ".build/Code.dmg/.." = None /\
  stat "missing/../.build/Code.app" = None /\
  stat ".build/../.build/./Code.app/" = Some Sim.bundle /\
  stat "/../work/.build//Code.app" = Some Sim.bundle /\
  stat "" = None /\
  Fs.errnoAt ["work"] Sim.disk ".build/Code.dmg/" = Fs.ENOTDIR /\
  Fs.errnoAt ["work"] Sim.disk "missing/../.build/Code.app" = Fs.ENOENT.
Proof. repeat split. Qed.

(** [mkdir -p] makes the directory a double dot leaves. *)
Example mkdirp_documented :
  match Fs.mkdirp ["work"] Sim.disk "dist/x/.." with
  | inr fs =>
      Fs.lookup fs ["work"; "dist"] = Some (Fs.Dir 0 [("x", Fs.Dir 0 [])])
  | inl _ => False
  end /\
  Fs.mkdirp ["work"] Sim.disk ".build/Code.dmg/x" = inl Fs.ENOTDIR /\
  Fs.mkdirp ["work"] Sim.disk ".build/Code.dmg" = inl Fs.EEXIST /\
  Fs.mkdirp ["gone"] Sim.disk "dist" = inl Fs.ENOENT.
Proof. repeat split. Qed.

(** A bundle path that is missing for the kernel is missing for the
    script, whatever its spelling. *)
Example missing_for_the_kernel :
  createDMG (Sim.machine "") ".build/Code.dmg/" ".build/Out.dmg" Sim.disk
  = Outcome (Throw (AppNotFound ".build/Code.dmg/")) Sim.disk [].
Proof. reflexivity. Qed.

(** A bundle with a symbolic link that leads nowhere cannot be measured:
    the run ends in the [statSync] of the link, with the joined path in
    the error, before anything is logged or removed. *)
Example unreadable_bundle :
  match Fs.writeAt Sim.disk ["work"; ".build"; "Broken.app"] Sim.brokenBundle
  with
  | inr disk =>
      createDMG (Sim.machine "") ".build/Broken.app" ".build/Code.dmg" disk
      = Outcome
          (Throw (FsFailed Fs.ENOENT
                    ".build/Broken.app/Contents/Frameworks/Current"))
          disk []
  | inl _ => False
  end.
Proof. reflexivity. Qed.

(** Only the first occurrence of the pattern is replaced. *)
Example replace_first_only :
  Str.replace ".dmg" "-temp.dmg" "a.dmg.dmg" = "a-temp.dmg.dmg".
Proof. reflexivity. Qed.

(** The mount point is found on the line of the slice that holds it. *)
Example mount_point_parsed :
  option_map Str.trim (Str.matchVolumes Sim.attachOutput)
  = Some "/Volumes/Code - OSS".
Proof. reflexivity. Qed.

(** The scenario of the specification: a bundle of 800 MB, a run without
    failure.  The final artifact exists at the output path, the staging
    image does not, and the process exits with status 0. *)
Example successful_run :
  let '(status, fs, _) :=
    main (Sim.machine "") [".build/Code.app"; ".build/Code.dmg"] Sim.disk in
  status = 0%Z /\
  Fs.lookup fs ["work"; ".build"; "Code.dmg"] = Some (Fs.File 300000000) /\
  Fs.lookup fs ["work"; ".build"; "Code-temp.dmg"] = None /\
  Fs.lookup fs ["Volumes"; "Code - OSS"] = None.
Proof. vm_compute. repeat split. Qed.

(** A failed conversion: exit status 1, the failure reported last. *)
Example failed_conversion :
  let '(status, fs, evs) :=
    main (Sim.machine "hdiutil convert")
         [".build/Code.app"; ".build/Code.dmg"] Sim.disk in
  status = 1%Z /\
  Fs.lookup fs ["work"; ".build"; "Code-temp.dmg"] = None /\
  last evs (ConsoleLog "") =
    ConsoleError "Failed to create DMG:"
      (ExecFailed (convertCommand ".build/Code-temp.dmg" ".build/Code.dmg")).
Proof. vm_compute. repeat split. Qed.

(** * Facts about strings and paths *)

Section StringFacts.

Lemma length_app (s t : string) :
  String.length (s ++ t) = String.length s + String.length t.
Proof. induction s as [|c s IH]; simpl; [reflexivity | now rewrite IH]. Qed.

Lemma take_app_le (s t : string) :
  forall e, e <= String.length s -> Str.take e (s ++ t) = Str.take e s.
Proof.
  induction s as [|c s IH]; intros [|e] He; simpl in *; try reflexivity.
  - lia.
  - f_equal. apply IH. lia.
Qed.

Lemma take_all (s : string) : Str.take (String.length s) s = s.
Proof. induction s as [|c s IH]; simpl; [reflexivity | now rewrite IH]. Qed.

Lemma take_app (s t : string) : Str.take (String.length s) (s ++ t) = s.
Proof. rewrite take_app_le by lia. apply take_all. Qed.

Lemma drop_app (s t : string) :
  forall n, Str.drop (String.length s + n) (s ++ t) = Str.drop n t.
Proof. induction s as [|c s IH]; simpl; [reflexivity | exact IH]. Qed.

Lemma isSlashAt_app_l (s t : string) (i : nat) :
  i < String.length s -> Str.isSlashAt (s ++ t) i = Str.isSlashAt s i.
Proof.
  intros Hi. unfold Str.isSlashAt.
  now rewrite <- (append_correct1 s t i Hi).
Qed.

Lemma isSlashAt_app_r (s t : string) (k : nat) :
  Str.isSlashAt (s ++ t) (String.length s + k) = Str.isSlashAt t k.
Proof.
  unfold Str.isSlashAt.
  now rewrite (append_correct2 s t k), (Nat.add_comm k).
Qed.

Lemma slashFree_at (t : string) :
  slashFree t = true -> forall k, Str.isSlashAt t k = false.
Proof.
  unfold Str.isSlashAt.
  induction t as [|c t IH]; simpl; intros H k; [reflexivity|].
  apply andb_true_iff in H as [Hc Ht].
  destruct k as [|k]; [now apply negb_true_iff in Hc | now apply IH].
Qed.

(** The index found by the loop is at most the index the scan starts at. *)
Lemma dirnameLoop_le (s : string) :
  forall i b e, Path.dirnameLoop s i b = Some e -> e <= i.
Proof.
  induction i as [|i IH]; simpl; intros b e H; [discriminate|].
  destruct (Str.isSlashAt s (S i)); [destruct b|].
  - apply IH in H. lia.
  - injection H as <-. lia.
  - apply IH in H. lia.
Qed.

(** Below the end of [s], the scan of [s ++ t] is the scan of [s]. *)
Lemma dirnameLoop_app_l (s t : string) :
  forall i b, i < String.length s ->
    Path.dirnameLoop (s ++ t) i b = Path.dirnameLoop s i b.
Proof.
  induction i as [|i IH]; simpl; intros b Hi; [reflexivity|].
  rewrite isSlashAt_app_l by lia.
  destruct (Str.isSlashAt s (S i)); [destruct b|]; try reflexivity;
    apply IH; lia.
Qed.

Lemma dirnameLoop_app_r (s t : string) :
  slashFree t = true ->
  forall k b, k < String.length t ->
    Path.dirnameLoop (s ++ t) (String.length s + k) b =
    match String.length s with
    | O => None
    | S m => Path.dirnameLoop s m false
    end.
Proof.
  intros Ht. induction k as [|k IH]; intros b Hk.
  - rewrite Nat.add_0_r. destruct (String.length s) as [|m] eqn:Hs.
    + reflexivity.
    + simpl. replace (S m) with (String.length s + 0) at 1 by lia.
      rewrite isSlashAt_app_r, (slashFree_at t Ht).
      apply dirnameLoop_app_l. lia.
  - rewrite Nat.add_succ_r. simpl.
    replace (S (String.length s + k)) with (String.length s + S k) by lia.
    rewrite isSlashAt_app_r, (slashFree_at t Ht).
    apply IH. lia.
Qed.

Lemma dirname_nonempty (path : string) :
  path <> "" ->
  Path.dirname path =
  match Path.dirnameLoop path (String.length path - 1) true with
  | None => if Str.isSlashAt path 0 then "/" else "."
  | Some e => if Str.isSlashAt path 0 && (e =? 1)%nat then "//"
              else Str.take e path
  end.
Proof. destruct path; [congruence | reflexivity]. Qed.



(** The directory of a path that ends in a non-empty slash-free name does
    not depend on that name. *)
Lemma dirname_app (s t : string) :
  t <> "" -> slashFree t = true ->
  Path.dirname (s ++ t) = dirnameOfStem s.
Proof.
  intros Hne Ht.
  assert (Hlen : String.length (s ++ t) - 1 =
                 String.length s + (String.length t - 1)).
  { rewrite length_app. destruct t; [congruence | simpl; lia]. }
  assert (Hk : String.length t - 1 < String.length t).
  { destruct t; [congruence | simpl; lia]. }
  rewrite dirname_nonempty by (destruct s, t; simpl; congruence).
  rewrite Hlen, (dirnameLoop_app_r s t Ht _ true Hk).
  unfold dirnameOfStem.
  destruct (String.length s) as [|m] eqn:Hs.
  - destruct s; [|discriminate]. simpl.
    now rewrite (slashFree_at t Ht).
  - rewrite (isSlashAt_app_l s t 0) by lia.
    destruct (Path.dirnameLoop s m false) as [e|] eqn:He; [|reflexivity].
    apply dirnameLoop_le in He.
    rewrite take_app_le by lia. reflexivity.
Qed.

(** [replace] in terms of [indexOf]. *)
Lemma replace_indexOf (p r : string) :
  forall s i, Str.indexOf p s = Some i ->
    Str.replace p r s =
    Str.take i s ++ r ++ Str.drop (i + String.length p) s.
Proof.
  induction s as [|c s IH]; intros i; simpl.
  - destruct (Str.startsWith p ""); [|discriminate].
    intros [= <-]. reflexivity.
  - destruct (Str.startsWith p (String c s)).
    + intros [= <-]. reflexivity.
    + destruct (Str.indexOf p s) as [j|]; [|discriminate].
      intros [= <-]. simpl. now rewrite (IH j eq_refl).
Qed.

End StringFacts.

(** * The staging path *)

(** Where the first [.dmg] of the output path is its extension, the
    staging path is the sibling that line 40 aims at: the output path with
    [-temp] put before the extension, in the same directory according to
    [path.dirname], and different from the output path. *)
Lemma staging_path_is_sibling (stem : string) :
  Str.indexOf ".dmg" (stem ++ ".dmg") = Some (String.length stem) ->
  tempDmgPath (stem ++ ".dmg") = stem ++ "-temp" ++ ".dmg" /\
  Path.dirname (tempDmgPath (stem ++ ".dmg")) = Path.dirname (stem ++ ".dmg") /\
  tempDmgPath (stem ++ ".dmg") <> stem ++ ".dmg".
Proof.
  intros Hidx.
  assert (Htemp : tempDmgPath (stem ++ ".dmg") = stem ++ "-temp.dmg").
  { unfold tempDmgPath.
    rewrite (replace_indexOf _ _ _ _ Hidx), take_app, drop_app.
    reflexivity. }
  rewrite Htemp. repeat split.
  - now rewrite !dirname_app by (reflexivity || discriminate).
  - intros Heq. apply (f_equal String.length) in Heq.
    rewrite !length_app in Heq. simpl in Heq. lia.
Qed.

(** C6: the claim holds of the path line 40 aims at, and line 40 misses it.
    For the output path [out.dmg.d/Code.dmg] the replacement hits the
    [.dmg] of the directory name: the staging path is
    [out-temp.dmg.d/Code.dmg], in another directory and with the base name
    of the output path itself, where the sibling would be
    [out.dmg.d/Code-temp.dmg]. *)
Theorem staging_path_leaves_directory :
  tempDmgPath "out.dmg.d/Code.dmg" = "out-temp.dmg.d/Code.dmg" /\
  tempDmgPath "out.dmg.d/Code.dmg" <> "out.dmg.d/Code-temp.dmg" /\
  Path.dirname "out.dmg.d/Code.dmg" = "out.dmg.d" /\
  Path.dirname (tempDmgPath "out.dmg.d/Code.dmg") = "out-temp.dmg.d".
Proof. repeat split. discriminate. Qed.

(** * The capacity plan *)

Lemma requiredSizeMB_bounds (size : N) :
  ((requiredSizeMB size - 51) * 1048576 < Z.of_N size
   <= (requiredSizeMB size - 50) * 1048576)%Z.
Proof.
  unfold requiredSizeMB.
  pose proof (Qle_ceiling (megabytes size)) as Hle.
  pose proof (Qceiling_lt (megabytes size)) as Hlt.
  set (m := Qceiling (megabytes size)) in *.
  unfold megabytes, Qle, Qlt, Qdiv, Qmult, Qinv, inject_Z in *.
  simpl in *. lia.
Qed.

(** * Facts about the file system *)

Section FsFacts.

Import Fs.

Lemma find_del_same (c : string) (es : list (string * node)) :
  find c (del c es) = None.
Proof.
  induction es as [|[n ch] es IH]; simpl; [reflexivity|].
  destruct (String.eqb n c) eqn:E; simpl; [exact IH | now rewrite E].
Qed.

Lemma find_del_other (c d : string) (es : list (string * node)) :
  c <> d -> find d (del c es) = find d es.
Proof.
  intros Hcd. induction es as [|[n ch] es IH]; simpl; [reflexivity|].
  destruct (String.eqb n c) eqn:E; simpl.
  - apply String.eqb_eq in E. subst n.
    apply String.eqb_neq in Hcd. now rewrite Hcd.
  - now rewrite IH.
Qed.

Lemma find_put_same (c : string) (v : node) (es : list (string * node)) :
  find c (put c v es) = Some v.
Proof.
  induction es as [|[n ch] es IH]; simpl.
  - now rewrite String.eqb_refl.
  - destruct (String.eqb n c) eqn:E; simpl.
    + now rewrite String.eqb_refl.
    + now rewrite E.
Qed.

Lemma find_put_other (c d : string) (v : node) (es : list (string * node)) :
  c <> d -> find d (put c v es) = find d es.
Proof.
  intros Hcd. pose proof Hcd as Hb. apply String.eqb_neq in Hb.
  induction es as [|[n ch] es IH]; simpl.
  - now rewrite Hb.
  - destruct (String.eqb n c) eqn:E; simpl.
    + apply String.eqb_eq in E. subst n.
      now rewrite Hb, find_del_other.
    + now rewrite IH.
Qed.

Lemma lookup_app (p q : list string) :
  forall n, lookup n (p ++ q) = match lookup n p with
                                | Some m => lookup m q
                                | None => None
                                end.
Proof.
  induction p as [|c p IH]; intros n; simpl; [reflexivity|].
  destruct n as [sz|sz es|]; try reflexivity.
  destruct (find c es) as [child|]; [apply IH | reflexivity].
Qed.

(** Nothing lies below what is not a directory. *)
Lemma lookup_below (n : node) (c : string) (q : list string) :
  isDirectory n = false -> lookup n (c :: q) = None.
Proof. now destruct n. Qed.



Lemma kind_isDir (root root' : node) (q : list string) :
  kind (lookup root' q) = kind (lookup root q) -> isDir root' q = isDir root q.
Proof.
  unfold isDir.
  destruct (lookup root' q) as [[| |]|], (lookup root q) as [[| |]|];
    simpl; congruence.
Qed.

(** What [unlink] removed is gone. *)
Lemma lookup_unlink_same :
  forall p n n', unlink n p = inr n' -> lookup n' p = None.
Proof.
  induction p as [|c p IH]; intros n n' H; simpl in H; [discriminate|].
  destruct n as [|sz es|]; try discriminate.
  destruct (find c es) as [child|] eqn:Hc; [|discriminate].
  destruct p as [|c' p'].
  - destruct (isDirectory child); [discriminate|].
    injection H as <-. simpl. now rewrite find_del_same.
  - destruct (unlink child (c' :: p')) as [e|child'] eqn:Hu; [discriminate|].
    injection H as <-.
    change (lookup (Dir sz (put c child' es)) (c :: c' :: p')) with
      (match find c (put c child' es) with
       | Some ch => lookup ch (c' :: p')
       | None => None
       end).
    rewrite find_put_same. now apply IH with (n := child).
Qed.

(** [unlink] changes the kind of no other location. *)
Lemma kind_unlink :
  forall p n n' q,
    unlink n p = inr n' -> q <> p ->
    kind (lookup n' q) = kind (lookup n q).
Proof.
  induction p as [|c p IH]; intros n n' q H Hq; simpl in H; [discriminate|].
  destruct n as [|sz es|]; try discriminate.
  destruct (find c es) as [child|] eqn:Hc; [|discriminate].
  destruct q as [|d q].
  { destruct p; [destruct (isDirectory child)|destruct (unlink child _)];
      try discriminate; now injection H as <-. }
  destruct (string_dec c d) as [<-|Hcd].
  - destruct p as [|c' p'].
    + destruct (isDirectory child) eqn:Hd; [discriminate|].
      injection H as <-. simpl. rewrite find_del_same, Hc.
      destruct q as [|d' q']; [congruence|].
      now rewrite lookup_below.
    + destruct (unlink child (c' :: p')) as [e|child'] eqn:Hu; [discriminate|].
      injection H as <-. simpl. rewrite find_put_same, Hc.
      apply IH with (1 := Hu). congruence.
  - destruct p as [|c' p'].
    + destruct (isDirectory child); [discriminate|].
      injection H as <-. simpl. now rewrite find_del_other.
    + destruct (unlink child (c' :: p')) as [e|child'] eqn:Hu; [discriminate|].
      injection H as <-. simpl. now rewrite find_put_other.
Qed.

(** [unlink] removes what is not a directory. *)
Lemma unlink_not_directory :
  forall p n n', unlink n p = inr n' -> isDir n p = false.
Proof.
  induction p as [|c p IH]; intros n n' H; simpl in H; [discriminate|].
  destruct n as [|sz es|]; try discriminate.
  destruct (find c es) as [child|] eqn:Hc; [|discriminate].
  unfold isDir. simpl. rewrite Hc.
  destruct p as [|c' p'].
  - simpl. now destruct child.
  - destruct (unlink child (c' :: p')) as [e|child'] eqn:Hu; [discriminate|].
    exact (IH _ _ Hu).
Qed.

(** [unlink] makes and unmakes no directory. *)
Lemma isDir_unlink (p : list string) (n n' : node) (q : list string) :
  unlink n p = inr n' -> isDir n' q = isDir n q.
Proof.
  intros H. destruct (list_eq_dec string_dec q p) as [->|Hq].
  - rewrite (unlink_not_directory _ _ _ H).
    unfold isDir. now rewrite (lookup_unlink_same _ _ _ H).
  - apply kind_isDir. now apply kind_unlink with (p := p).
Qed.

(** [unlink] creates nothing. *)
Lemma lookup_unlink_absent :
  forall p n n' q,
    unlink n p = inr n' -> lookup n q = None -> lookup n' q = None.
Proof.
  intros p n n' q H Hq. destruct (list_eq_dec string_dec q p) as [->|Hne].
  - exact (lookup_unlink_same _ _ _ H).
  - pose proof (kind_unlink _ _ _ _ H Hne) as Hk. rewrite Hq in Hk.
    now destruct (lookup n' q) as [[| |]|].
Qed.

(** What [writeAt] wrote is there. *)
Lemma lookup_writeAt_same :
  forall p n v n', writeAt n p v = inr n' -> lookup n' p = Some v.
Proof.
  induction p as [|c p IH]; intros n v n' H; simpl in H; [discriminate|].
  destruct n as [|sz es|]; try discriminate.
  destruct p as [|c' p'].
  - injection H as <-. simpl. now rewrite find_put_same.
  - destruct (find c es) as [child|] eqn:Hc; [|discriminate].
    destruct (writeAt child (c' :: p') v) as [e|child'] eqn:Hw; [discriminate|].
    injection H as <-.
    change (lookup (Dir sz (put c child' es)) (c :: c' :: p')) with
      (match find c (put c child' es) with
       | Some ch => lookup ch (c' :: p')
       | None => None
       end).
    rewrite find_put_same. now apply IH with (n := child).
Qed.

(** [writeAt] leaves alone what lies off its path. *)
Lemma lookup_writeAt_diverge :
  forall p n v n' q,
    writeAt n p v = inr n' -> diverge p q = true ->
    lookup n' q = lookup n q.
Proof.
  induction p as [|c p IH]; intros n v n' q H Hd; simpl in H; [discriminate|].
  destruct n as [|sz es|]; try discriminate.
  destruct q as [|d q]; [discriminate|]. simpl in Hd.
  destruct (String.eqb c d) eqn:E.
  - apply String.eqb_eq in E. subst d.
    destruct p as [|c' p']; [destruct q; discriminate|].
    destruct (find c es) as [child|] eqn:Hc; [|discriminate].
    destruct (writeAt child (c' :: p') v) as [e|child'] eqn:Hw; [discriminate|].
    injection H as <-. simpl. rewrite find_put_same, Hc.
    now apply IH with (v := v).
  - apply String.eqb_neq in E.
    destruct p as [|c' p'].
    + injection H as <-. simpl. now rewrite find_put_other.
    + destruct (find c es) as [child|] eqn:Hc; [|discriminate].
      destruct (writeAt child (c' :: p') v) as [e|child'] eqn:Hw;
        [discriminate|].
      injection H as <-. simpl. now rewrite find_put_other.
Qed.



(** ** The walk of the kernel *)


(** A walk that succeeds ends where the components lead. *)
Lemma reach_location (root : node) :
  forall segs res p,
    reach root res segs = inr p ->
    p = rev (fold_left (Path.normalizeStep false) segs res).
Proof.
  induction segs as [|seg segs IH]; intros res p H; simpl in H.
  - now injection H.
  - destruct (lookup root (rev res)) as [[| |]|]; try discriminate.
    exact (IH _ _ H).
Qed.

Lemma locate_resolve (cwd : list string) (root : node) (path : string)
  (p : list string) :
  locate cwd root path = inr p -> resolve cwd path = Some p.
Proof.
  unfold locate, resolve. destruct path; [discriminate|].
  intros H. apply reach_location in H. now subst p.
Qed.

(** A walk succeeds wherever its directories are directories. *)
Lemma reach_transfer (root root' : node) :
  (forall q, isDir root q = true -> isDir root' q = true) ->
  forall segs res p,
    reach root res segs = inr p -> reach root' res segs = inr p.
Proof.
  intros Hdir. induction segs as [|seg segs IH]; intros res p H; simpl in *;
    [exact H|].
  pose proof (Hdir (rev res)) as Hq. unfold isDir in Hq.
  destruct (lookup root (rev res)) as [[| |]|]; try discriminate.
  specialize (Hq eq_refl).
  destruct (lookup root' (rev res)) as [[| |]|]; try discriminate.
  now apply IH.
Qed.

Lemma locate_transfer (cwd : list string) (root root' : node) (path : string)
  (p : list string) :
  (forall q, isDir root q = true -> isDir root' q = true) ->
  locate cwd root path = inr p -> locate cwd root' path = inr p.
Proof.
  intros Hdir. unfold locate. destruct path; [discriminate|].
  now apply reach_transfer.
Qed.

(** Two walks of the same path that both succeed end at the same
    location. *)
Lemma locate_unique (cwd : list string) (root root' : node) (path : string)
  (p p' : list string) :
  locate cwd root path = inr p -> locate cwd root' path = inr p' -> p = p'.
Proof.
  intros H H'. apply locate_resolve in H, H'. congruence.
Qed.

(** What [stat] finds is what lies at the location of the path, unless it
    is a link that leads nowhere. *)
Lemma stat_located (cwd : list string) (root : node) (path : string)
  (p : list string) :
  locate cwd root path = inr p ->
  stat cwd root path = match lookup root p with
                       | Some Dangling => None
                       | found => found
                       end.
Proof.
  intros H. unfold stat, access. rewrite H.
  now destruct (lookup root p) as [[| |]|].
Qed.

Lemma stat_Some (cwd : list string) (root : node) (path : string)
  (found : node) :
  stat cwd root path = Some found ->
  exists p, locate cwd root path = inr p /\ lookup root p = Some found /\
            found <> Dangling.
Proof.
  unfold stat, access.
  destruct (locate cwd root path) as [code|p]; [discriminate|].
  destruct (lookup root p) as [[| |]|] eqn:E; try discriminate;
    intros [= <-]; exists p; (split; [reflexivity|]);
    (split; [exact E | discriminate]).
Qed.

Lemma stat_unlocated (cwd : list string) (root : node) (path : string)
  (code : errno) :
  locate cwd root path = inl code -> stat cwd root path = None.
Proof. intros H. unfold stat, access. now rewrite H. Qed.

(** Components that only go down lead to a location below the one they
    start from. *)
Lemma descend_extends :
  forall segs res,
    forallb (fun seg => negb (String.eqb seg "..")) segs = true ->
    exists ext,
      rev (fold_left (Path.normalizeStep false) segs res) = (rev res ++ ext)%list /\
      (segs <> [] -> isName (last segs "") = true -> ext <> []).
Proof.
  induction segs as [|seg segs IH]; intros res Hdown.
  - exists []. split; [now rewrite app_nil_r | congruence].
  - cbn [forallb] in Hdown. apply andb_true_iff in Hdown as [Hseg Hsegs].
    cbn [fold_left].
    destruct (IH (Path.normalizeStep false res seg) Hsegs) as (ext & Heq & Hext).
    unfold Path.normalizeStep in *.
    destruct (String.eqb seg "" || String.eqb seg ".") eqn:Hstay.
    + exists ext. split; [exact Heq|]. intros _ Hlast.
      destruct segs as [|seg' segs'].
      * exfalso. unfold isName in Hlast. cbn [last] in Hlast.
        rewrite <- orb_assoc in Hlast.
        apply negb_true_iff, orb_false_iff in Hlast as [H1 H2].
        apply orb_false_iff in H2 as [H2 _].
        apply orb_true_iff in Hstay as [H|H]; congruence.
      * apply Hext; [discriminate | exact Hlast].
    + apply negb_true_iff in Hseg. rewrite Hseg in *.
      exists (seg :: ext). split.
      * rewrite Heq. cbn [rev]. now rewrite <- app_assoc.
      * discriminate.
Qed.

(** Where the components only go down, [stat] finds what lies at the
    location they lead to, unless it is a link that leads nowhere. *)
Lemma reach_fails_below (root : node) :
  forall segs res code,
    descending segs = true ->
    reach root res segs = inl code ->
    lookup root (rev (fold_left (Path.normalizeStep false) segs res)) = None.
Proof.
  unfold descending.
  induction segs as [|seg segs IH]; intros res code Hdown H; [discriminate|].
  apply andb_true_iff in Hdown as [Hdd Hlast].
  cbn [reach] in H. cbn [fold_left].
  destruct (lookup root (rev res)) as [[fsz|dsz des|]|] eqn:Hres.
  2:{ destruct segs as [|seg' segs']; [discriminate|].
      apply IH with (code := code); [|exact H].
      cbn [forallb] in Hdd. apply andb_true_iff in Hdd as [_ Hdd].
      apply andb_true_iff. now split. }
  all: destruct (descend_extends (seg :: segs) res Hdd) as (ext & Heq & Hext);
    cbn [fold_left] in Heq; rewrite Heq, lookup_app, Hres;
    try reflexivity;
    (destruct ext as [|c ext]; [now destruct Hext | reflexivity]).
Qed.

Lemma stat_descending (cwd : list string) (root : node) (path : string) :
  path <> "" -> descending (segments cwd path) = true ->
  stat cwd root path =
  match lookup root (Path.normalizeString false (segments cwd path)) with
  | Some Dangling => None
  | found => found
  end.
Proof.
  intros Hpath Hdown.
  destruct (locate cwd root path) as [code|p] eqn:Hp.
  - rewrite (stat_unlocated _ _ _ _ Hp).
    unfold locate in Hp. destruct path; [congruence|].
    unfold Path.normalizeString.
    now rewrite (reach_fails_below _ _ _ _ Hdown Hp).
  - rewrite (stat_located _ _ _ _ Hp).
    apply locate_resolve in Hp. unfold resolve in Hp.
    destruct path; [congruence|]. now injection Hp as <-.
Qed.

(** ** The walk of [mkdir -p] *)











End FsFacts.

(** * Facts about the effects *)

Section MonadFacts.

Context {A B : Type}.

Lemma res_bind (m : M A) (k : A -> M B) (fs : Fs.node) :
  res (bind m k fs) =
  match res (m fs) with
  | Ok a => res (k a (final (m fs)))
  | Throw e => Throw e
  end.
Proof. unfold bind. now destruct (res (m fs)). Qed.

Lemma final_bind (m : M A) (k : A -> M B) (fs : Fs.node) :
  final (bind m k fs) =
  match res (m fs) with
  | Ok a => final (k a (final (m fs)))
  | Throw _ => final (m fs)
  end.
Proof. unfold bind. now destruct (res (m fs)). Qed.

Lemma events_bind (m : M A) (k : A -> M B) (fs : Fs.node) :
  events (bind m k fs) =
  (events (m fs) ++
   match res (m fs) with
   | Ok a => events (k a (final (m fs)))
   | Throw _ => []
   end)%list.
Proof.
  unfold bind. destruct (res (m fs)); simpl; [reflexivity|].
  now rewrite app_nil_r.
Qed.

Lemma outcome_eta (o : outcome A) :
  o = Outcome (res o) (final o) (events o).
Proof. now destruct o. Qed.

(** A step that ends normally hands its result and state to the rest. *)
Lemma bind_ok (m : M A) (k : A -> M B) (fs : Fs.node) (a : A) :
  res (m fs) = Ok a ->
  bind m k fs =
  Outcome (res (k a (final (m fs)))) (final (k a (final (m fs))))
          (events (m fs) ++ events (k a (final (m fs))))%list.
Proof. intros H. unfold bind. now rewrite H. Qed.

End MonadFacts.

Section EmitsFacts.

Context {A B : Type} (P : event -> Prop).

Lemma emits_ret (a : A) : emits P (ret a).
Proof. intros fs. constructor. Qed.

Lemma emits_throw (e : error) : emits P (@throw A e).
Proof. intros fs. constructor. Qed.

Lemma emits_bind (m : M A) (k : A -> M B) :
  emits P m -> (forall a, emits P (k a)) -> emits P (bind m k).
Proof.
  intros Hm Hk fs. rewrite events_bind. apply Forall_app. split.
  - apply Hm.
  - destruct (res (m fs)); [apply Hk | constructor].
Qed.

Lemma emits_tryFinally (body : M A) (handler : M unit) :
  emits P body -> emits P handler -> emits P (tryFinally body handler).
Proof.
  intros Hb Hh fs. unfold tryFinally. simpl.
  apply Forall_app. split; [apply Hb | apply Hh].
Qed.

Lemma emits_if (b : bool) (m1 m2 : M A) :
  emits P m1 -> emits P m2 -> emits P (if b then m1 else m2).
Proof. now destruct b. Qed.

End EmitsFacts.

(** * Facts about the stages of the pipeline *)

Arguments createCommand : simpl never.
Arguments attachCommand : simpl never.
Arguments linkCommand : simpl never.
Arguments detachCommand : simpl never.
Arguments convertCommand : simpl never.
Arguments tempDmgPath : simpl never.
Arguments Path.join : simpl never.
Arguments Path.dirname : simpl never.
Arguments Str.trim : simpl never.
Arguments Str.matchVolumes : simpl never.
Arguments Str.ofZ : simpl never.
Arguments Fs.stat : simpl never.
Arguments requiredSizeMB : simpl never.
Arguments round : simpl never.

Section StageFacts.

Variable host : Host.



Lemma unlinkSync_cases (path : string) (fs : Fs.node) :
  (res (unlinkSync host path fs) = Ok tt /\
   events (unlinkSync host path fs) = [UnlinkSync path] /\
   Fs.stat (cwd host) (final (unlinkSync host path fs)) path = None /\
   forall q, Fs.stat (cwd host) fs q = None ->
             Fs.stat (cwd host) (final (unlinkSync host path fs)) q = None) \/
  (exists code,
     unlinkSync host path fs = Outcome (Throw (FsFailed code path)) fs []).
Proof.
  unfold unlinkSync.
  destruct (Fs.locate (cwd host) fs path) as [code|p] eqn:Hp;
    [right; now eexists|].
  destruct (Fs.unlink fs p) as [code|fs'] eqn:Hu; [right; now eexists|].
  left. cbn [res final events]. repeat split.
  - destruct (Fs.locate (cwd host) fs' path) as [code|p'] eqn:Hp'.
    + exact (stat_unlocated _ _ _ _ Hp').
    + rewrite (stat_located _ _ _ _ Hp').
      rewrite <- (locate_unique _ _ _ _ _ _ Hp Hp').
      now rewrite (lookup_unlink_same _ _ _ Hu).
  - intros q Hq.
    destruct (Fs.stat (cwd host) fs' q) as [found|] eqn:Hs; [|reflexivity].
    exfalso. apply stat_Some in Hs as (r & Hr & Hfound & Hlive).
    assert (Hr0 : Fs.locate (cwd host) fs q = inr r).
    { apply locate_transfer with (root := fs'); [|exact Hr].
      intros l. now rewrite (isDir_unlink _ _ _ l Hu). }
    rewrite (stat_located _ _ _ _ Hr0) in Hq.
    destruct (list_eq_dec string_dec r p) as [->|Hne].
    + rewrite (lookup_unlink_same _ _ _ Hu) in Hfound. discriminate.
    + pose proof (kind_unlink _ _ _ _ Hu Hne) as Hk. rewrite Hfound in Hk.
      destruct (Fs.lookup fs r) as [[| |]|], found; simpl in Hk;
        congruence.
Qed.

(** The guarded removal either fails in [unlinkSync], having changed
    nothing, or leaves nothing at the path and creates nothing. *)
Lemma unlinkIfExists_cases (path : string) (fs : Fs.node) :
  (res (unlinkIfExists host path fs) = Ok tt /\
   Forall preludeEvent (events (unlinkIfExists host path fs)) /\
   Fs.stat (cwd host) (final (unlinkIfExists host path fs)) path = None /\
   forall q, Fs.stat (cwd host) fs q = None ->
             Fs.stat (cwd host) (final (unlinkIfExists host path fs)) q = None) \/
  (exists code,
     unlinkIfExists host path fs =
     Outcome (Throw (FsFailed code path)) fs []).
Proof.
  unfold unlinkIfExists, bind, existsSync. simpl.
  destruct (Fs.stat (cwd host) fs path) eqn:Hs.
  - destruct (unlinkSync_cases path fs) as [(Hr & He & Hp & Hq)|[code Hc]].
    + left. rewrite Hr, He. repeat split; simpl; auto.
      now repeat constructor.
    + right. exists code. now rewrite Hc.
  - left. simpl. repeat split; auto.
Qed.

Lemma validate_cases (appPath : string) (fs : Fs.node) :
  (Fs.stat (cwd host) fs appPath <> None /\
   validate host appPath fs = Outcome (Ok tt) fs []) \/
  (Fs.stat (cwd host) fs appPath = None /\
   validate host appPath fs = Outcome (Throw (AppNotFound appPath)) fs []).
Proof.
  unfold validate, bind, existsSync. simpl.
  destruct (Fs.stat (cwd host) fs appPath); [left | right]; split; try reflexivity.
  discriminate.
Qed.

Lemma plan_cases (appPath : string) (fs : Fs.node) :
  (exists dir appSize,
     Fs.stat (cwd host) fs appPath = Some dir /\
     Fs.getDirectorySize dir = inr appSize /\
     res (plan host appPath fs) = Ok (requiredSizeMB appSize) /\
     final (plan host appPath fs) = fs /\
     Forall preludeEvent (events (plan host appPath fs))) \/
  (exists code path,
     plan host appPath fs = Outcome (Throw (FsFailed code path)) fs []).
Proof.
  unfold plan, bind, getDirectorySizeAt.
  destruct (Fs.stat (cwd host) fs appPath) as [dir|] eqn:Hs;
    [|right; now eexists; eexists].
  destruct (Fs.getDirectorySize dir) as [[code below]|appSize] eqn:Hd;
    [right; now eexists; eexists|].
  left. exists dir, appSize. simpl. repeat split; auto.
  constructor; [left; reflexivity|].
  constructor; [right; reflexivity | constructor].
Qed.

Lemma ensureOutputDir_cases (outputPath : string) (fs : Fs.node) :
  (res (ensureOutputDir host outputPath fs) = Ok tt /\
   Forall preludeEvent (events (ensureOutputDir host outputPath fs))) \/
  (exists code,
     ensureOutputDir host outputPath fs =
     Outcome (Throw (FsFailed code (Path.dirname outputPath))) fs []).
Proof.
  unfold ensureOutputDir, bind, existsSync, mkdirSync. simpl.
  destruct (Fs.stat (cwd host) fs (Path.dirname outputPath)); simpl.
  - left. split; [reflexivity | constructor].
  - destruct (Fs.mkdirp _ fs _) as [code|fs']; [right; now eexists|].
    left. simpl. split; [reflexivity | now repeat constructor].
Qed.

Lemma clearStale_cases (outputPath : string) (fs : Fs.node) :
  (res (clearStale host outputPath fs) = Ok tt /\
   Forall preludeEvent (events (clearStale host outputPath fs)) /\
   Fs.stat (cwd host) (final (clearStale host outputPath fs)) (tempDmgPath outputPath) = None /\
   Fs.stat (cwd host) (final (clearStale host outputPath fs)) outputPath = None) \/
  ((exists code path,
      res (clearStale host outputPath fs) = Throw (FsFailed code path)) /\
   Forall preludeEvent (events (clearStale host outputPath fs))).
Proof.
  unfold clearStale.
  rewrite res_bind, final_bind, events_bind.
  destruct (unlinkIfExists_cases (tempDmgPath outputPath) fs)
    as [(Hr & He & Hp & Hq)|[code Hc]].
  - rewrite Hr.
    set (fs1 := final (unlinkIfExists host (tempDmgPath outputPath) fs)) in *.
    destruct (unlinkIfExists_cases outputPath fs1)
      as [(Hr' & He' & Hp' & Hq')|[code Hc]].
    + left. repeat split; auto. apply Forall_app. now split.
    + right. rewrite Hc. simpl. split; [now eexists; eexists|].
      now rewrite app_nil_r.
  - right. rewrite Hc. simpl. split; [now eexists; eexists | constructor].
Qed.

End StageFacts.

Section PipelineFacts.

Variable host : Host.



(** A run of [createDMG] either ends before the outer [try], with a missing
    bundle or a failed file system call, or it is the run of the two nested
    scopes from a state in which neither the staging path nor the output
    path exists. *)
Lemma createDMG_stages (appPath outputPath : string) (fs : Fs.node) :
  let o := createDMG host appPath outputPath fs in
  (((exists code path, res o = Throw (FsFailed code path)) \/
    (res o = Throw (AppNotFound appPath) /\ Fs.stat (cwd host) fs appPath = None)) /\
   Forall preludeEvent (events o)) \/
  (exists dir appSize fs1 pre,
     let scoped :=
       tryFinally (build host appPath outputPath (requiredSizeMB appSize))
                  (cleanup host outputPath) fs1 in
     Fs.stat (cwd host) fs appPath = Some dir /\
     Fs.getDirectorySize dir = inr appSize /\
     Forall preludeEvent pre /\
     Fs.stat (cwd host) fs1 (tempDmgPath outputPath) = None /\
     Fs.stat (cwd host) fs1 outputPath = None /\
     res o = res scoped /\
     final o = final scoped /\
     events o = (pre ++ events scoped)%list).
Proof.
  intros o. subst o. unfold createDMG.
  rewrite res_bind, final_bind, events_bind.
  destruct (validate_cases host appPath fs) as [[_ Hv]|[Hn Hv]];
    rewrite Hv; simpl.
  2:{ left. split; [right; now split | constructor]. }
  rewrite res_bind, final_bind, events_bind.
  destruct (plan_cases host appPath fs)
    as [(dir & appSize & Hs & Hd & Hr & Hf & He)|(code & path & Hc)].
  2:{ rewrite Hc. simpl. left. split; [left; now eexists; eexists|constructor]. }
  rewrite Hr, Hf.
  rewrite res_bind, final_bind, events_bind.
  destruct (ensureOutputDir_cases host outputPath fs) as [[Hr1 He1]|[code Hc]].
  2:{ rewrite Hc. simpl. left. split; [left; now eexists; eexists|].
      now rewrite app_nil_r. }
  rewrite Hr1.
  set (fs0 := final (ensureOutputDir host outputPath fs)) in *.
  rewrite res_bind, final_bind, events_bind.
  destruct (clearStale_cases host outputPath fs0)
    as [(Hr2 & He2 & Ht & Ho)|[(code & path & Hr2) He2]].
  2:{ rewrite Hr2. left. split; [left; now eexists; eexists|].
      rewrite app_nil_r. apply Forall_app; split; [assumption|].
      apply Forall_app; now split. }
  rewrite Hr2. right.
  exists dir, appSize, (final (clearStale host outputPath fs0)).
  exists (events (plan host appPath fs) ++
          events (ensureOutputDir host outputPath fs) ++
          events (clearStale host outputPath fs0))%list.
  repeat split; auto.
  - apply Forall_app; split; [assumption|].
    apply Forall_app; now split.
  - now rewrite <- !app_assoc.
Qed.

End PipelineFacts.

(** * The orchestrator *)

(** C1.  Whenever [createDMG] returns normally, or throws what a stage of
    the outer [try] throws (a failed external command of staging, mounting,
    decoration, unmounting or conversion, or an unparsed mount point), the
    staging path does not exist in the state it leaves: the outer [finally]
    has run and removed it. *)
Theorem staging_image_removed_on_every_exit
  (host : Host) (appPath outputPath : string) (fs : Fs.node) :
  let o := createDMG host appPath outputPath fs in
  (res o = Ok tt \/
   (exists command, res o = Throw (ExecFailed command)) \/
   res o = Throw MountPointNotParsed) ->
  Fs.stat (cwd host) (final o) (tempDmgPath outputPath) = None.
Proof.
  intros o Hexit.
  destruct (createDMG_stages host appPath outputPath fs)
    as [[[(code & path & Hr)|[Hr _]] _]
       |(dir & appSize & fs1 & pre & _ & _ & _ & _ & _ & Hr & Hf & _)];
    fold o in Hr; try fold o in Hf.
  - rewrite Hr in Hexit. destruct Hexit as [H|[[c H]|H]]; discriminate.
  - rewrite Hr in Hexit. destruct Hexit as [H|[[c H]|H]]; discriminate.
  - rewrite Hf. rewrite Hr in Hexit. unfold tryFinally, cleanup in *.
    cbn [res final] in *.
    set (fs2 := final (build host appPath outputPath
                         (requiredSizeMB appSize) fs1)) in *.
    destruct (unlinkIfExists_cases host (tempDmgPath outputPath) fs2)
      as [(_ & _ & Hgone & _)|[code Hc]]; [exact Hgone|].
    rewrite Hc in Hexit. simpl in Hexit.
    destruct Hexit as [H|[[c H]|H]]; discriminate.
Qed.

Lemma staging_image_removed_on_every_exit_witness :
  let o := createDMG (Sim.machine "ln") ".build/Code.app" ".build/Code.dmg"
             Sim.disk in
  (exists command, res o = Throw (ExecFailed command)) /\
  Fs.stat (cwd (Sim.machine "ln")) Sim.disk (tempDmgPath ".build/Code.dmg")
    = Some (Fs.File 456) /\
  Fs.stat (cwd (Sim.machine "ln")) (final o) (tempDmgPath ".build/Code.dmg")
    = None.
Proof.
  assert (H : exists command,
             res (createDMG (Sim.machine "ln") ".build/Code.app"
                    ".build/Code.dmg" Sim.disk) = Throw (ExecFailed command))
    by (eexists; vm_compute; reflexivity).
  split; [exact H|]. split; [reflexivity|].
  apply (staging_image_removed_on_every_exit (Sim.machine "ln")).
  right; left. exact H.
Defined.

(** C5.  When [fs.existsSync] finds nothing at the bundle path (the entry
    is missing, or a component on the way to it is missing or is not a
    directory, or the path ends in a symbolic link that leads nowhere),
    [createDMG] throws the not-found error at once: the file system is the
    one it was given and no event (no log line, no command, no removal, no
    directory creation) has been written. *)
Theorem missing_bundle_fails_without_effects
  (host : Host) (appPath outputPath : string) (fs : Fs.node) :
  Fs.stat (cwd host) fs appPath = None ->
  createDMG host appPath outputPath fs =
  Outcome (Throw (AppNotFound appPath)) fs [].
Proof.
  intros Hmissing. unfold createDMG, bind.
  destruct (validate_cases host appPath fs) as [[Hex _]|[_ Hv]];
    [contradiction|].
  now rewrite Hv.
Qed.

Lemma missing_bundle_fails_without_effects_witness :
  Fs.stat (cwd (Sim.machine "")) Sim.disk "missing/../.build/Code.app"
    = None /\
  createDMG (Sim.machine "") "missing/../.build/Code.app" ".build/Code.dmg"
    Sim.disk =
  Outcome (Throw (AppNotFound "missing/../.build/Code.app")) Sim.disk [].
Proof.
  split; [reflexivity|].
  apply (missing_bundle_fails_without_effects (Sim.machine "")).
  reflexivity.
Defined.

(** C8.  With fewer than two arguments the entry point prints the usage
    text and exits with status 1; the file system is untouched and
    [createDMG] contributes no event. *)
Theorem too_few_arguments_print_usage
  (host : Host) (args : list string) (fs : Fs.node) :
  List.length args < 2 ->
  main host args fs = (1%Z, fs, usage).
Proof.
  intros Hlen. destruct args as [|appPath [|outputPath rest]];
    simpl in *; try reflexivity. lia.
Qed.

Lemma too_few_arguments_print_usage_witness :
  List.length [".build/Code.app"] < 2 /\
  main (Sim.machine "") [".build/Code.app"] Sim.disk = (1%Z, Sim.disk, usage).
Proof.
  split; [simpl; lia|].
  apply (too_few_arguments_print_usage (Sim.machine "")). simpl. lia.
Defined.

(** * Events of the stages *)

Section EventFacts.

Variable host : Host.
Variable P : event -> Prop.

Lemma emits_existsSync (path : string) : emits P (existsSync host path).
Proof. intros fs. constructor. Qed.

Lemma emits_statSync (path : string) : emits P (statSync host path).
Proof. intros fs. unfold statSync. destruct (Fs.stat _ _ _); constructor. Qed.

Lemma emits_getDirectorySizeAt (path : string) :
  emits P (getDirectorySizeAt host path).
Proof.
  intros fs. unfold getDirectorySizeAt.
  destruct (Fs.stat _ _ _) as [dir|]; [|constructor].
  destruct (Fs.getDirectorySize dir) as [[code below]|totalSize]; constructor.
Qed.

Lemma emits_unlinkSync (path : string) :
  P (UnlinkSync path) -> emits P (unlinkSync host path).
Proof.
  intros HP fs. unfold unlinkSync.
  destruct (Fs.locate _ _ _) as [code|p]; [constructor|].
  destruct (Fs.unlink fs p); now repeat constructor.
Qed.

Lemma emits_mkdirSync (path : string) :
  P (MkdirSync path) -> emits P (mkdirSync host path).
Proof.
  intros HP fs. unfold mkdirSync.
  destruct (Fs.mkdirp _ fs _); now repeat constructor.
Qed.

Lemma emits_execSync (command : string) :
  P (ExecSync command) -> emits P (execSync host command).
Proof.
  intros HP fs. unfold execSync.
  destruct (tool host command fs) as [[stdout|] fs']; now repeat constructor.
Qed.

Lemma emits_consoleLog (line : string) :
  P (ConsoleLog line) -> emits P (consoleLog line).
Proof. intros HP fs. now repeat constructor. Qed.

Lemma emits_unlinkIfExists (path : string) :
  P (UnlinkSync path) -> emits P (unlinkIfExists host path).
Proof.
  intros HP. apply emits_bind; [apply emits_existsSync|]. intros present.
  apply emits_if; [now apply emits_unlinkSync | apply emits_ret].
Qed.

Lemma emits_decorate (mountPoint : string) :
  (forall command, P (ExecSync command)) ->
  P (ConsoleLog "Added Applications symlink") ->
  emits P (decorate host mountPoint).
Proof.
  intros Hexec Hlog.
  apply emits_bind; [apply emits_existsSync|]. intros present.
  apply emits_if; [|apply emits_ret].
  apply emits_bind; [now apply emits_execSync|]. intros _.
  now apply emits_consoleLog.
Qed.

Lemma emits_detach (mountPoint : string) :
  (forall command, P (ExecSync command)) ->
  P (ConsoleLog "Unmounting...") ->
  emits P (detach host mountPoint).
Proof.
  intros Hexec Hlog.
  apply emits_bind; [now apply emits_consoleLog|]. intros _.
  apply emits_bind; [now apply emits_execSync|]. intros _.
  apply emits_ret.
Qed.

Lemma emits_convert (tempPath outputPath : string) :
  (forall command, P (ExecSync command)) ->
  (forall line, Str.startsWith "Mounted at: " line = false ->
                P (ConsoleLog line)) ->
  emits P (convert host tempPath outputPath).
Proof.
  intros Hexec Hlog.
  apply emits_bind; [now apply emits_consoleLog, Hlog|]. intros _.
  apply emits_bind; [now apply emits_execSync|]. intros _.
  apply emits_bind; [now apply emits_consoleLog, Hlog|]. intros _.
  apply emits_bind; [apply emits_statSync|]. intros finalStats.
  now apply emits_consoleLog, Hlog.
Qed.

(** A property of every log line, command, removal and directory creation
    is a property of every event of the pipeline. *)
Hypothesis P_log : forall line, P (ConsoleLog line).
Hypothesis P_exec : forall command, P (ExecSync command).
Hypothesis P_unlink : forall path, P (UnlinkSync path).
Hypothesis P_mkdir : forall path, P (MkdirSync path).

Lemma emits_build (appPath outputPath : string) (sizeMB : Z) :
  emits P (build host appPath outputPath sizeMB).
Proof.
  apply emits_bind; [now apply emits_consoleLog|]. intros _.
  apply emits_bind; [now apply emits_execSync|]. intros _.
  apply emits_bind; [now apply emits_consoleLog|]. intros _.
  apply emits_bind; [now apply emits_execSync|]. intros mountOutput.
  destruct (Str.matchVolumes mountOutput) as [mountMatch|];
    [|apply emits_throw].
  apply emits_bind; [now apply emits_consoleLog|]. intros _.
  apply emits_bind; [|intros _; now apply emits_convert].
  apply emits_tryFinally; [now apply emits_decorate | now apply emits_detach].
Qed.

Lemma emits_createDMG (appPath outputPath : string) :
  emits P (createDMG host appPath outputPath).
Proof.
  apply emits_bind.
  { apply emits_bind; [apply emits_existsSync|]. intros present.
    apply emits_if; [apply emits_throw | apply emits_ret]. }
  intros _. apply emits_bind.
  { apply emits_bind; [apply emits_getDirectorySizeAt|]. intros appSize.
    apply emits_bind; [now apply emits_consoleLog|]. intros _.
    apply emits_bind; [now apply emits_consoleLog|]. intros _.
    apply emits_ret. }
  intros sizeMB. apply emits_bind.
  { apply emits_bind; [apply emits_existsSync|]. intros present.
    apply emits_if; [now apply emits_mkdirSync | apply emits_ret]. }
  intros _. apply emits_bind.
  { apply emits_bind; [now apply emits_unlinkIfExists|]. intros _.
    now apply emits_unlinkIfExists. }
  intros _. apply emits_tryFinally; [apply emits_build|].
  now apply emits_unlinkIfExists.
Qed.

End EventFacts.

Section BuildEvents.

Variable host : Host.

Lemma events_log_then {B} (line : string) (k : unit -> M B) (fs : Fs.node) :
  events (bind (consoleLog line) k fs) = ConsoleLog line :: events (k tt fs).
Proof. reflexivity. Qed.

Lemma events_exec_then {B} (command : string) (k : string -> M B)
  (fs : Fs.node) :
  events (bind (execSync host command) k fs) =
  ExecSync command ::
  match tool host command fs with
  | (Some stdout, fs') => events (k stdout fs')
  | (None, _) => []
  end.
Proof.
  unfold bind, execSync.
  now destruct (tool host command fs) as [[stdout|] fs'].
Qed.

Lemma events_detach (mountPoint : string) (fs : Fs.node) :
  events (detach host mountPoint fs) =
  [ConsoleLog "Unmounting..."; ExecSync (detachCommand mountPoint)].
Proof.
  unfold detach. rewrite events_log_then, events_exec_then.
  now destruct (tool host _ fs) as [[stdout|] fs'].
Qed.

(** The body of the outer [try] opens with its log line and the create
    command. *)
Lemma events_build_head (appPath outputPath : string) (sizeMB : Z)
  (fs : Fs.node) :
  exists rest,
    events (build host appPath outputPath sizeMB fs) =
    ConsoleLog "Creating temporary DMG..." ::
    ExecSync (createCommand host appPath sizeMB (tempDmgPath outputPath)) ::
    rest.
Proof.
  unfold build. rewrite events_log_then, events_exec_then.
  eexists. reflexivity.
Qed.

(** Once the mount point is announced, the detach command on it follows. *)
Lemma events_build_mounted (appPath outputPath : string) (sizeMB : Z)
  (fs : Fs.node) (mountPoint : string) :
  In (ConsoleLog ("Mounted at: " ++ mountPoint))
     (events (build host appPath outputPath sizeMB fs)) ->
  exists pre mid post,
    events (build host appPath outputPath sizeMB fs) =
    (pre ++ ConsoleLog ("Mounted at: " ++ mountPoint) ::
     mid ++ ExecSync (detachCommand mountPoint) :: post)%list.
Proof.
  remember (events (build host appPath outputPath sizeMB fs)) as evs eqn:Hevs.
  unfold build in Hevs. rewrite events_log_then, events_exec_then in Hevs.
  destruct (tool host _ fs) as [[stdout1|] fs1].
  2:{ subst evs. simpl. intros [H|[H|[]]]; discriminate. }
  rewrite events_log_then, events_exec_then in Hevs.
  destruct (tool host _ fs1) as [[mountOutput|] fs2].
  2:{ subst evs. simpl. intros [H|[H|[H|[H|[]]]]]; discriminate. }
  destruct (Str.matchVolumes mountOutput) as [mountMatch|].
  2:{ subst evs. simpl. intros [H|[H|[H|[H|[]]]]]; discriminate. }
  rewrite events_log_then, events_bind in Hevs.
  unfold tryFinally at 1 in Hevs. cbn [events] in Hevs.
  rewrite events_detach in Hevs.
  set (decorated := events (decorate host (Str.trim mountMatch) fs2)) in *.
  set (rest := match res _ with Ok a => _ | Throw _ => [] end) in *.
  intros Hin.
  assert (Hmp : mountPoint = Str.trim mountMatch).
  { rewrite Hevs in Hin. simpl in Hin.
    destruct Hin as [H|[H|[H|[H|[H|H]]]]]; try discriminate.
    - now injection H.
    - exfalso. rewrite <- app_assoc in H.
      apply in_app_or in H as [H|H].
      + assert (Hd : Forall notMounted decorated).
        { apply emits_decorate; [intros c; exact I | reflexivity]. }
        rewrite Forall_forall in Hd. apply Hd in H. simpl in H. discriminate.
      + simpl in H. destruct H as [H|[H|H]]; try discriminate.
        assert (Hr : Forall notMounted rest).
        { subst rest. destruct (res _); [|constructor].
          apply emits_convert; [intros c; exact I | intros l Hl; exact Hl]. }
        rewrite Forall_forall in Hr. apply Hr in H. simpl in H. discriminate. }
  subst mountPoint.
  exists [ConsoleLog "Creating temporary DMG...";
          ExecSync (createCommand host appPath sizeMB (tempDmgPath outputPath));
          ConsoleLog "Mounting DMG to add Applications symlink...";
          ExecSync (attachCommand (tempDmgPath outputPath))].
  exists (decorated ++ [ConsoleLog "Unmounting..."])%list, rest.
  rewrite Hevs. cbn [app]. rewrite <- !app_assoc. reflexivity.
Qed.

End BuildEvents.

Section PipelineEvents.

Variable host : Host.

Lemma not_prelude_mounted (mountPoint : string) :
  ~ preludeEvent (ConsoleLog ("Mounted at: " ++ mountPoint)).
Proof. simpl. intros [H|H]; discriminate. Qed.

Lemma events_createDMG_mounted (appPath outputPath : string) (fs : Fs.node)
  (mountPoint : string) :
  In (ConsoleLog ("Mounted at: " ++ mountPoint))
     (events (createDMG host appPath outputPath fs)) ->
  exists pre mid post,
    events (createDMG host appPath outputPath fs) =
    (pre ++ ConsoleLog ("Mounted at: " ++ mountPoint) ::
     mid ++ ExecSync (detachCommand mountPoint) :: post)%list.
Proof.
  intros Hin.
  destruct (createDMG_stages host appPath outputPath fs)
    as [[_ Hpre]
       |(dir & appSize & fs1 & pre0 & _ & _ & Hpre & _ & _ & _ & _ & Hev)].
  - rewrite Forall_forall in Hpre. apply Hpre in Hin.
    now apply not_prelude_mounted in Hin.
  - cbv zeta in Hev. rewrite Hev in Hin |- *.
    unfold tryFinally in Hin |- *. cbn [events] in Hin |- *.
    set (b := build host appPath outputPath (requiredSizeMB appSize) fs1) in *.
    set (c := events (cleanup host outputPath (final b))) in *.
    apply in_app_or in Hin as [Hin|Hin].
    { rewrite Forall_forall in Hpre. apply Hpre in Hin.
      now apply not_prelude_mounted in Hin. }
    apply in_app_or in Hin as [Hin|Hin].
    + destruct (events_build_mounted host _ _ _ _ _ Hin)
        as (pre & mid & post & Hb).
      exists (pre0 ++ pre)%list, mid, (post ++ c)%list.
      fold b in Hb. rewrite Hb, <- !app_assoc. cbn [app].
      now rewrite <- !app_assoc.
    + exfalso.
      assert (Hc : Forall notMounted c).
      { apply emits_unlinkIfExists. exact I. }
      rewrite Forall_forall in Hc. apply Hc in Hin. simpl in Hin. discriminate.
Qed.

End PipelineEvents.

(** C2.  In every run of the entry point that announces a mount point (the
    staging image was attached and the mount point parsed), the command
    [hdiutil detach "<mount point>" -quiet] on that very mount point is run
    afterwards, and no failure report is printed before it: whether
    decoration succeeds or throws, the scope is left through the detach. *)
Theorem detach_precedes_failure_report
  (host : Host) (args : list string) (fs : Fs.node) (mountPoint : string) :
  In (ConsoleLog ("Mounted at: " ++ mountPoint)) (snd (main host args fs)) ->
  exists pre mid post,
    snd (main host args fs) =
    (pre ++ ConsoleLog ("Mounted at: " ++ mountPoint) ::
     mid ++
     ExecSync ("hdiutil detach " ++ Str.quoted mountPoint ++ " -quiet") ::
     post)%list /\
    Forall notReport pre /\ Forall notReport mid.
Proof.
  destruct args as [|appPath [|outputPath rest]].
  1,2: simpl; intros [H|[H|[H|[H|[]]]]]; discriminate.
  unfold main.
  set (o := createDMG host appPath outputPath fs).
  assert (Hclean : Forall notReport (events o)).
  { apply emits_createDMG; intros; exact I. }
  intros Hin.
  assert (Hin' : In (ConsoleLog ("Mounted at: " ++ mountPoint)) (events o)).
  { destruct (res o); simpl in Hin; [exact Hin|].
    apply in_app_or in Hin as [Hin|[Hin|[]]]; [exact Hin | discriminate]. }
  destruct (events_createDMG_mounted host _ _ _ _ Hin')
    as (pre & mid & post & Hev).
  fold o in Hev. rewrite Hev in Hclean.
  apply Forall_app in Hclean as [Hpre Hclean].
  apply Forall_cons_iff in Hclean as [_ Hclean].
  apply Forall_app in Hclean as [Hmid _].
  destruct (res o) as [|err]; simpl; rewrite Hev.
  - now exists pre, mid, post.
  - exists pre, mid, (post ++ [ConsoleError "Failed to create DMG:" err])%list.
    repeat split; auto.
    rewrite <- !app_assoc. cbn [app]. now rewrite <- !app_assoc.
Qed.

Lemma detach_precedes_failure_report_witness :
  In (ConsoleLog ("Mounted at: " ++ "/Volumes/Code - OSS"))
     (snd (main (Sim.machine "ln") [".build/Code.app"; ".build/Code.dmg"]
             Sim.disk)) /\
  exists pre mid post,
    snd (main (Sim.machine "ln") [".build/Code.app"; ".build/Code.dmg"]
           Sim.disk) =
    (pre ++ ConsoleLog ("Mounted at: " ++ "/Volumes/Code - OSS") ::
     mid ++
     ExecSync ("hdiutil detach " ++ Str.quoted "/Volumes/Code - OSS" ++
               " -quiet") ::
     post)%list /\
    Forall notReport pre /\ Forall notReport mid.
Proof.
  assert (H : In (ConsoleLog ("Mounted at: " ++ "/Volumes/Code - OSS"))
                (snd (main (Sim.machine "ln")
                        [".build/Code.app"; ".build/Code.dmg"] Sim.disk))).
  { vm_compute. do 8 right. left. reflexivity. }
  split; [exact H|].
  exact (detach_precedes_failure_report (Sim.machine "ln") _ _ _ H).
Defined.

Lemma not_prelude_staging :
  ~ preludeEvent (ConsoleLog "Creating temporary DMG...").
Proof. simpl. intros [H|H]; discriminate. Qed.

(** Once the outer [try] is entered, the create command is run with the
    capacity planned from the measured size. *)
Lemma create_command_uses_plan
  (host : Host) (appPath outputPath : string) (fs dir : Fs.node) (appSize : N) :
  Fs.stat (cwd host) fs appPath = Some dir ->
  Fs.getDirectorySize dir = inr appSize ->
  In (ConsoleLog "Creating temporary DMG...")
     (events (createDMG host appPath outputPath fs)) ->
  In (ExecSync (createCommand host appPath (requiredSizeMB appSize)
                  (tempDmgPath outputPath)))
     (events (createDMG host appPath outputPath fs)).
Proof.
  intros Hs Hd Hin.
  destruct (createDMG_stages host appPath outputPath fs)
    as [[_ Hpre]
       |(dir' & appSize' & fs1 & pre0 & Hs' & Hd' & _ & _ & _ & _ & _ & Hev)].
  - rewrite Forall_forall in Hpre. apply Hpre in Hin.
    now apply not_prelude_staging in Hin.
  - rewrite Hs in Hs'. injection Hs' as <-.
    rewrite Hd in Hd'. injection Hd' as <-.
    cbv zeta in Hev. rewrite Hev. unfold tryFinally. cbn [events].
    destruct (events_build_head host appPath outputPath
                (requiredSizeMB appSize) fs1) as [rest Hb].
    rewrite Hb. apply in_or_app. right. right. left. reflexivity.
Qed.

(** A run on a bundle that can be measured opens with the two log lines
    of the plan; the rest is the run of the remaining stages with the
    planned capacity. *)
Lemma createDMG_planned
  (host : Host) (appPath outputPath : string) (fs dir : Fs.node) (appSize : N) :
  Fs.stat (cwd host) fs appPath = Some dir ->
  Fs.getDirectorySize dir = inr appSize ->
  let rest :=
    bind (ensureOutputDir host outputPath)
         (fun _ =>
            bind (clearStale host outputPath)
                 (fun _ =>
                    tryFinally
                      (build host appPath outputPath (requiredSizeMB appSize))
                      (cleanup host outputPath))) fs in
  createDMG host appPath outputPath fs =
  Outcome (res rest) (final rest)
          ([ConsoleLog ("App size: " ++
                        Str.ofZ (round (megabytes appSize)) ++ "MB");
            ConsoleLog ("Creating DMG with " ++
                        Str.ofZ (requiredSizeMB appSize) ++ "MB capacity...")]
           ++ events rest)%list.
Proof.
  intros Hs Hd.
  assert (Hvalidate : validate host appPath fs = Outcome (Ok tt) fs []).
  { destruct (validate_cases host appPath fs) as [[_ H]|[H _]];
      [exact H | congruence]. }
  assert (Hplan : plan host appPath fs =
                  Outcome (Ok (requiredSizeMB appSize)) fs
                    [ConsoleLog ("App size: " ++
                                 Str.ofZ (round (megabytes appSize)) ++ "MB");
                     ConsoleLog ("Creating DMG with " ++
                                 Str.ofZ (requiredSizeMB appSize) ++
                                 "MB capacity...")]).
  { unfold plan, bind, getDirectorySizeAt. now rewrite Hs, Hd. }
  unfold createDMG.
  rewrite (bind_ok (validate host appPath) _ fs tt) by now rewrite Hvalidate.
  rewrite Hvalidate. cbn [res final events app].
  rewrite (bind_ok (plan host appPath) _ fs (requiredSizeMB appSize))
    by now rewrite Hplan.
  rewrite Hplan. cbn [res final events]. reflexivity.
Qed.

(** C3.  Whatever size the measurement of the bundle returns, the capacity
    the run plans is that size in megabytes, rounded up to a whole number,
    plus 50: the one integer [c] with [(c - 51) MB < size <= (c - 50) MB].
    That number is the one the run logs as the capacity, and the one the
    create command is run with, as [-size <c>m], once staging is entered.
    For a bundle of 838860800 bytes it is 850. *)
Theorem capacity_is_rounded_up_size_plus_margin
  (host : Host) (appPath outputPath : string) (fs dir : Fs.node) (appSize : N) :
  Fs.stat (cwd host) fs appPath = Some dir ->
  Fs.getDirectorySize dir = inr appSize ->
  exists capacity : Z,
    ((capacity - 51) * 1048576 < Z.of_N appSize
     <= (capacity - 50) * 1048576)%Z /\
    capacity = ((Z.of_N appSize + 1048575) / 1048576 + 50)%Z /\
    (appSize = 838860800%N -> capacity = 850%Z) /\
    In (ConsoleLog ("Creating DMG with " ++ Str.ofZ capacity ++
                    "MB capacity..."))
       (events (createDMG host appPath outputPath fs)) /\
    (In (ConsoleLog "Creating temporary DMG...")
        (events (createDMG host appPath outputPath fs)) ->
     In (ExecSync
           ("hdiutil create -srcfolder " ++ Str.quoted appPath ++
            " -volname " ++ Str.quoted (volumeName host) ++
            " -fs HFS+ -fsargs " ++ Str.quoted "-c c=64,a=16,e=16" ++
            " -format UDRW -size " ++ Str.ofZ capacity ++ "m " ++
            Str.quoted (tempDmgPath outputPath)))
        (events (createDMG host appPath outputPath fs))).
Proof.
  intros Hs Hd. exists (requiredSizeMB appSize).
  pose proof (requiredSizeMB_bounds appSize) as Hb.
  split; [exact Hb|]. split; [|split; [|split]].
  - symmetry.
    replace (requiredSizeMB appSize)
      with (requiredSizeMB appSize - 50 + 50)%Z by lia.
    f_equal. symmetry.
    apply Z.div_unique with
      (r := (Z.of_N appSize + 1048575
             - 1048576 * (requiredSizeMB appSize - 50))%Z);
      lia.
  - intros ->. reflexivity.
  - rewrite (createDMG_planned host _ outputPath _ _ _ Hs Hd).
    cbn [events app]. right. left. reflexivity.
  - intros Hin.
    exact (create_command_uses_plan host _ _ _ _ _ Hs Hd Hin).
Qed.

Lemma capacity_is_rounded_up_size_plus_margin_witness :
  Fs.stat (cwd (Sim.machine "")) Sim.disk ".build/Code.app"
    = Some Sim.bundle /\
  Fs.getDirectorySize Sim.bundle = inr 838860800%N /\
  In (ConsoleLog "Creating DMG with 850MB capacity...")
     (events (createDMG (Sim.machine "") ".build/Code.app" ".build/Code.dmg"
                Sim.disk)) /\
  In (ExecSync
        ("hdiutil create -srcfolder " ++ Str.quoted ".build/Code.app" ++
         " -volname " ++ Str.quoted "Code - OSS" ++
         " -fs HFS+ -fsargs " ++ Str.quoted "-c c=64,a=16,e=16" ++
         " -format UDRW -size 850m " ++ Str.quoted ".build/Code-temp.dmg"))
     (events (createDMG (Sim.machine "") ".build/Code.app" ".build/Code.dmg"
                Sim.disk)).
Proof.
  split; [reflexivity|]. split; [reflexivity|].
  destruct (capacity_is_rounded_up_size_plus_margin
              (Sim.machine "") ".build/Code.app" ".build/Code.dmg" Sim.disk
              Sim.bundle 838860800 eq_refl eq_refl)
    as (capacity & _ & _ & H850 & Hlog & Hcmd).
  rewrite (H850 eq_refl) in Hlog, Hcmd. split; [exact Hlog|].
  apply Hcmd. vm_compute. do 4 right. left. reflexivity.
Defined.

(** * Numbers as doubles *)

Section DoubleFacts.

Import Double.
Local Open Scope N_scope.

Lemma ulp_pos (n : N) : 0 < ulp n.
Proof. unfold ulp. apply N.neq_0_lt_0, N.pow_nonzero. discriminate. Qed.

Lemma nearest_bounds (u n : N) :
  0 < u -> (n / u) * u <= nearest u n <= (n / u + 1) * u.
Proof.
  intros Hu. unfold nearest.
  destruct (2 * (n mod u) <? u); [lia|].
  destruct (u <? 2 * (n mod u)); [lia|].
  destruct (N.even (n / u)); lia.
Qed.

Lemma nearest_multiple (u k : N) : 0 < u -> nearest u (k * u) = k * u.
Proof.
  intros Hu. unfold nearest.
  rewrite N.div_mul, N.Div0.mod_mul by lia.
  replace (2 * 0 <? u) with true; [reflexivity|].
  symmetry. apply N.ltb_lt. lia.
Qed.

Lemma nearest_monotone (u m n : N) :
  0 < u -> m <= n -> nearest u m <= nearest u n.
Proof.
  intros Hu Hmn.
  assert (Hq : m / u <= n / u) by (apply N.Div0.div_le_mono; lia).
  destruct (N.eq_dec (m / u) (n / u)) as [E|E].
  - assert (Hr : m mod u <= n mod u).
    { pose proof (N.div_mod m u). pose proof (N.div_mod n u).
      assert (u <> 0) by lia. rewrite E in *. nia. }
    unfold nearest. rewrite E.
    destruct (2 * (m mod u) <? u) eqn:A1.
    + destruct (2 * (n mod u) <? u); [lia|].
      destruct (u <? 2 * (n mod u)); [lia|].
      destruct (N.even (n / u)); lia.
    + apply N.ltb_ge in A1.
      destruct (2 * (n mod u) <? u) eqn:B1; [apply N.ltb_lt in B1; lia|].
      destruct (u <? 2 * (m mod u)) eqn:A2.
      * apply N.ltb_lt in A2.
        replace (u <? 2 * (n mod u)) with true; [lia|].
        symmetry. apply N.ltb_lt. lia.
      * destruct (u <? 2 * (n mod u)); [destruct (N.even (n / u)); lia|].
        destruct (N.even (n / u)); lia.
  - pose proof (nearest_bounds u m Hu). pose proof (nearest_bounds u n Hu).
    assert (m / u + 1 <= n / u) by lia. nia.
Qed.

Lemma log2_bounds (n : N) : 0 < n -> 2 ^ N.log2 n <= n < 2 ^ (N.log2 n + 1).
Proof. intros H. rewrite N.add_1_r. now apply N.log2_spec. Qed.

Lemma pow_split (a b : N) : b <= a -> 2 ^ a = 2 ^ (a - b) * 2 ^ b.
Proof. intros H. rewrite <- N.pow_add_r. f_equal. lia. Qed.

(** Rounding stays within the binary order of magnitude. *)
Lemma round_bounds (n : N) :
  0 < n -> 2 ^ N.log2 n <= round n <= 2 ^ (N.log2 n + 1).
Proof.
  intros Hn. pose proof (log2_bounds n Hn) as [Hlo Hhi].
  pose proof (ulp_pos n) as Hu.
  pose proof (nearest_bounds (ulp n) n Hu) as [Hb1 Hb2].
  fold (round n) in Hb1, Hb2.
  assert (He : N.log2 n - 52 <= N.log2 n) by lia.
  assert (He' : N.log2 n - 52 <= N.log2 n + 1) by lia.
  rewrite (pow_split _ _ He) in Hlo |- *.
  rewrite (pow_split _ _ He') in Hhi |- *.
  fold (ulp n) in *.
  set (u := ulp n) in *. set (a := 2 ^ (N.log2 n - (N.log2 n - 52))) in *.
  set (b := 2 ^ (N.log2 n + 1 - (N.log2 n - 52))) in *.
  assert (Hqa : a <= n / u).
  { apply N.div_le_lower_bound; lia. }
  assert (Hqb : n / u < b).
  { apply N.Div0.div_lt_upper_bound; lia. }
  split; nia.
Qed.

Lemma round_0 : round 0 = 0.
Proof. reflexivity. Qed.

Lemma round_multiple (n : N) : exists k, round n = k * ulp n.
Proof.
  unfold round, nearest.
  destruct (_ <? _); [now eexists|].
  destruct (_ <? _); [now eexists|].
  destruct (N.even _); now eexists.
Qed.

Lemma round_idempotent (n : N) : round (round n) = round n.
Proof.
  destruct (N.eq_dec n 0) as [->|Hn0]; [reflexivity|].
  assert (Hn : 0 < n) by lia.
  pose proof (round_bounds n Hn) as [Hlo Hhi].
  destruct (round_multiple n) as [k Hk].
  destruct (N.eq_dec (round n) (2 ^ (N.log2 n + 1))) as [E|E].
  - rewrite E. unfold round at 1.
    assert (HL : N.log2 (2 ^ (N.log2 n + 1)) = N.log2 n + 1)
      by apply N.log2_pow2, N.le_0_l.
    unfold ulp. rewrite HL.
    assert (He : N.log2 n + 1 - 52 <= N.log2 n + 1) by lia.
    rewrite (pow_split _ _ He).
    apply nearest_multiple. apply N.neq_0_lt_0, N.pow_nonzero. discriminate.
  - assert (HL : N.log2 (round n) = N.log2 n).
    { apply N.log2_unique; [apply N.le_0_l|]. rewrite <- N.add_1_r. lia. }
    unfold round at 1. unfold ulp at 1. rewrite HL. fold (ulp n).
    rewrite Hk. apply nearest_multiple, ulp_pos.
Qed.

Lemma round_monotone (m n : N) : m <= n -> round m <= round n.
Proof.
  intros Hmn.
  destruct (N.eq_dec m 0) as [->|Hm0]; [rewrite round_0; lia|].
  assert (Hm : 0 < m) by lia. assert (Hn : 0 < n) by lia.
  assert (HL : N.log2 m <= N.log2 n) by now apply N.log2_le_mono.
  destruct (N.eq_dec (N.log2 m) (N.log2 n)) as [E|E].
  - unfold round, ulp. rewrite E. apply nearest_monotone; [|exact Hmn].
    apply N.neq_0_lt_0, N.pow_nonzero. discriminate.
  - pose proof (round_bounds m Hm) as [_ H1].
    pose proof (round_bounds n Hn) as [H2 _].
    assert (H3 : 2 ^ (N.log2 m + 1) <= 2 ^ N.log2 n).
    { apply N.pow_le_mono_r; lia. }
    lia.
Qed.

Lemma round_small (n : N) : n <= 2 ^ 53 -> round n = n.
Proof.
  intros Hn. destruct (N.eq_dec n (2 ^ 53)) as [->|Hne]; [reflexivity|].
  assert (Hu : ulp n = 1).
  { unfold ulp. destruct (N.eq_dec n 0) as [->|Hn0]; [reflexivity|].
    assert (HL : N.log2 n < 53) by (apply N.log2_lt_pow2; lia).
    replace (N.log2 n - 52) with 0 by lia. reflexivity. }
  unfold round. rewrite Hu.
  pose proof (nearest_multiple 1 n) as H. rewrite N.mul_1_r in H.
  apply H. lia.
Qed.

End DoubleFacts.

(** * The size estimator *)

Section SizeFacts.

Import Fs.

(** Induction on trees: a property of directories may assume itself for
    every entry. *)
Section NodeInduction.

Variable P : node -> Prop.
Hypothesis P_file : forall sz, P (File sz).
Hypothesis P_link : P Dangling.
Hypothesis P_dir :
  forall sz files, Forall (fun entry => P (snd entry)) files -> P (Dir sz files).

Lemma node_induction : forall t, P t.
Proof.
  fix IH 1. intros [sz|sz files|].
  - apply P_file.
  - apply P_dir. induction files as [|entry files IHfiles].
    + constructor.
    + constructor; [apply IH | exact IHfiles].
  - apply P_link.
Qed.

End NodeInduction.

Lemma total_app (l1 l2 : list N) : total (l1 ++ l2) = (total l1 + total l2)%N.
Proof.
  induction l1 as [|x l1 IH]; simpl; [reflexivity|].
  rewrite IH. lia.
Qed.

Lemma total_permutation (l1 l2 : list N) :
  Permutation l1 l2 -> total l1 = total l2.
Proof. induction 1; simpl; lia. Qed.

Lemma Size_cons (sz : N) (name : string) (t : node)
  (files : list (string * node)) :
  Size (Dir sz ((name, t) :: files)) = (Size t + Size (Dir sz files))%N.
Proof. unfold Size. simpl. apply total_app. Qed.

(** Below 2^53 the loop of [getDirectorySize] adds the entries to the
    running total without rounding. *)
Lemma loop_total (files : list (string * node)) :
  Forall (fun entry => readable (snd entry) = true ->
                       isDirectory (snd entry) = true ->
                       (Size (snd entry) <= 2 ^ 53)%N ->
                       getDirectorySize (snd entry) = inr (Size (snd entry)))
         files ->
  forallb (fun entry => readable (snd entry)) files = true ->
  forall totalSize,
    (totalSize + Size (Dir 0 files) <= 2 ^ 53)%N ->
    fold_left (addEntry getDirectorySize) files (inr totalSize) =
    inr (totalSize + Size (Dir 0 files))%N.
Proof.
  induction 1 as [|[name stats] files Hhead _ IH]; intros Hread totalSize Hle.
  - simpl. f_equal. unfold Size. simpl. lia.
  - cbn [forallb snd] in *. apply andb_true_iff in Hread as [Hstats Hfiles].
    rewrite Size_cons in Hle |- *.
    cbn [fold_left]. unfold addEntry at 2. cbn [fst snd].
    assert (Hstat : statError stats = None) by now destruct stats.
    rewrite Hstat. unfold Double.add.
    destruct (isDirectory stats) eqn:Hdir.
    + rewrite (Hhead Hstats eq_refl) by lia.
      rewrite round_small by lia.
      rewrite IH by (assumption || lia). f_equal. lia.
    + destruct stats as [fsz|dsz sub|]; try discriminate.
      assert (Hfile : Size (File fsz) = fsz).
      { unfold Size. simpl. lia. }
      rewrite Hfile in Hle |- *.
      cbn [size]. rewrite (round_small fsz) by lia.
      rewrite round_small by lia.
      rewrite IH by (assumption || lia). f_equal. lia.
Qed.

Lemma getDirectorySize_Size (t : node) :
  readable t = true -> isDirectory t = true -> (Size t <= 2 ^ 53)%N ->
  getDirectorySize t = inr (Size t).
Proof.
  induction t as [sz| |sz files IH] using node_induction;
    intros Hread Hdir Hle; try discriminate.
  cbn [getDirectorySize]. rewrite (loop_total files IH Hread 0); [reflexivity|].
  exact Hle.
Qed.

Lemma reordered_regularFiles (t t' : node) :
  reordered t t' -> Permutation (regularFiles t) (regularFiles t').
Proof.
  revert t t'.
  apply (reordered_mut
           (fun t t' => Permutation (regularFiles t) (regularFiles t'))
           (fun l l' =>
              Permutation
                (flat_map (fun entry => regularFiles (snd entry)) l)
                (flat_map (fun entry => regularFiles (snd entry)) l'))).
  - intros sz. apply Permutation_refl.
  - apply Permutation_refl.
  - intros sz files files' _ H. exact H.
  - apply Permutation_refl.
  - intros name t t' files files' _ Ht _ Hfiles. simpl.
    now apply Permutation_app.
  - intros x y files. simpl. rewrite !app_assoc.
    apply Permutation_app_tail, Permutation_app_comm.
  - intros l l' l'' _ H1 _ H2. now transitivity
      (flat_map (fun entry => regularFiles (snd entry)) l').
Qed.

Lemma reordered_readable (t t' : node) :
  reordered t t' -> readable t' = readable t.
Proof.
  revert t t'.
  apply (reordered_mut
           (fun t t' => readable t' = readable t)
           (fun l l' =>
              forallb (fun entry => readable (snd entry)) l' =
              forallb (fun entry => readable (snd entry)) l)).
  - reflexivity.
  - reflexivity.
  - intros sz files files' _ H. exact H.
  - reflexivity.
  - intros name t t' files files' _ Ht _ Hfiles. simpl. now rewrite Ht, Hfiles.
  - intros x y files. simpl.
    now destruct (readable (snd x)), (readable (snd y)).
  - intros l l' l'' _ H1 _ H2. now rewrite H2.
Qed.

End SizeFacts.

(** C4 (as amended).  On a directory tree in which [fs.statSync] can read
    every entry and whose regular files add up to 2^53 bytes at most,
    [getDirectorySize] returns the sum of the sizes of the regular files
    reachable from it, at any depth, the directories themselves adding
    nothing; and the result is the same for the same tree listed in any
    other order. *)
Theorem size_is_total_of_regular_files
  (sz : N) (files : list (string * Fs.node)) :
  readable (Fs.Dir sz files) = true ->
  (Size (Fs.Dir sz files) <= 2 ^ 53)%N ->
  Fs.getDirectorySize (Fs.Dir sz files) = inr (Size (Fs.Dir sz files)) /\
  forall t', reordered (Fs.Dir sz files) t' ->
             Fs.getDirectorySize t' = Fs.getDirectorySize (Fs.Dir sz files).
Proof.
  intros Hread Hle.
  split; [now apply getDirectorySize_Size|].
  intros t' Hre.
  rewrite (getDirectorySize_Size (Fs.Dir sz files) Hread eq_refl Hle).
  assert (Hdir : Fs.isDirectory t' = true) by now inversion Hre.
  assert (Hsize : Size t' = Size (Fs.Dir sz files)).
  { symmetry. apply total_permutation. now apply reordered_regularFiles. }
  rewrite getDirectorySize_Size; [now rewrite Hsize | | exact Hdir |].
  - now rewrite (reordered_readable _ _ Hre).
  - now rewrite Hsize.
Qed.

(** C4 as stated fails.  Of a file of 2^53 bytes and a file of one byte
    the code returns 2^53; with a second file of one byte the result
    depends on the order of the listing; and on a symbolic link that leads
    nowhere the code throws. *)
Lemma size_counterexample :
  Fs.getDirectorySize
    (Fs.Dir 0 [("a", Fs.File (2 ^ 53)); ("b", Fs.File 1)])
  = inr (2 ^ 53)%N /\
  Size (Fs.Dir 0 [("a", Fs.File (2 ^ 53)); ("b", Fs.File 1)])
  = (2 ^ 53 + 1)%N /\
  Fs.getDirectorySize
    (Fs.Dir 0 [("a", Fs.File (2 ^ 53)); ("b", Fs.File 1); ("c", Fs.File 1)])
  = inr (2 ^ 53)%N /\
  Fs.getDirectorySize
    (Fs.Dir 0 [("b", Fs.File 1); ("c", Fs.File 1); ("a", Fs.File (2 ^ 53))])
  = inr (2 ^ 53 + 2)%N /\
  Fs.getDirectorySize
    (Fs.Dir 0 [("Frameworks", Fs.Dir 0 [("Current", Fs.Dangling)])])
  = inl (Fs.ENOENT, ["Frameworks"; "Current"]).
Proof. repeat split; vm_compute; reflexivity. Qed.

(** * Results and final states of the stages *)

Section HoareRules.

Context {A B : Type}.

Lemma hoare_bind (P : Fs.node -> Prop) (m : M A) (k : A -> M B)
  (R : result A -> Fs.node -> Prop) (Q : result B -> Fs.node -> Prop) :
  hoare P m R ->
  (forall e fs, R (Throw e) fs -> Q (Throw e) fs) ->
  (forall a, hoare (R (Ok a)) (k a) Q) ->
  hoare P (bind m k) Q.
Proof.
  intros Hm Hthrow Hk fs HP. rewrite res_bind, final_bind.
  specialize (Hm fs HP). destruct (res (m fs)) as [a|e].
  - now apply Hk.
  - now apply Hthrow.
Qed.

Lemma hoare_tryFinally (P : Fs.node -> Prop) (body : M A) (handler : M unit)
  (R Q : result A -> Fs.node -> Prop) :
  hoare P body R ->
  (forall r, hoare (R r) handler
               (fun rh fs => Q (match rh with
                                | Ok _ => r
                                | Throw e => Throw e
                                end) fs)) ->
  hoare P (tryFinally body handler) Q.
Proof.
  intros Hb Hh fs HP. unfold tryFinally. cbn [res final].
  exact (Hh _ _ (Hb fs HP)).
Qed.

End HoareRules.

Section OutputAbsent.

Variable host : Host.
Variable outputPath : string.

(** No command other than the conversion creates the output artifact. *)
Hypothesis tool_frame :
  forall command fs,
    Str.startsWith "hdiutil convert" command = false ->
    absent host outputPath fs -> absent host outputPath (snd (tool host command fs)).

Lemma hoare_consoleLog (P : Fs.node -> Prop) (line : string) :
  hoare P (consoleLog line) (fun _ fs => P fs).
Proof. intros fs HP. exact HP. Qed.

Lemma hoare_existsSync (P : Fs.node -> Prop) (path : string) :
  hoare P (existsSync host path) (fun _ fs => P fs).
Proof. intros fs HP. exact HP. Qed.

Lemma hoare_execSync (command : string) :
  Str.startsWith "hdiutil convert" command = false ->
  hoare (absent host outputPath) (execSync host command) (fun _ fs => absent host outputPath fs).
Proof.
  intros Hsafe fs Habs. unfold execSync.
  pose proof (tool_frame command fs Hsafe Habs) as H.
  now destruct (tool host command fs) as [[stdout|] fs'].
Qed.

Lemma hoare_decorate (mountPoint : string) :
  hoare (absent host outputPath) (decorate host mountPoint) (fun _ fs => absent host outputPath fs).
Proof.
  apply hoare_bind with (R := fun _ fs => absent host outputPath fs); auto.
  - apply hoare_existsSync.
  - intros present. destruct present; simpl; [intros fs H; exact H|].
    apply hoare_bind with (R := fun _ fs => absent host outputPath fs); auto.
    + now apply hoare_execSync.
    + intros _. apply hoare_consoleLog.
Qed.

Lemma hoare_detach (mountPoint : string) :
  hoare (absent host outputPath) (detach host mountPoint) (fun _ fs => absent host outputPath fs).
Proof.
  apply hoare_bind with (R := fun _ fs => absent host outputPath fs); auto.
  - apply hoare_consoleLog.
  - intros _. apply hoare_bind with (R := fun _ fs => absent host outputPath fs); auto.
    + now apply hoare_execSync.
    + intros _ fs H. exact H.
Qed.

(** The conversion stage ends normally, or with the failure of the
    conversion command, or with a failed [statSync]. *)
Lemma convert_result (tempPath : string) (fs : Fs.node) :
  ~ failedBeforeConversion (res (convert host tempPath outputPath fs)).
Proof.
  unfold convert, bind, consoleLog, emit, execSync, statSync.
  cbn [res final].
  destruct (tool host _ fs) as [[stdout|] fs']; cbn [res final].
  - destruct (Fs.stat _ _ _); cbn [res];
      intros [H|(c & H & _)]; discriminate.
  - intros [H|(c & H & Hc)]; [discriminate|].
    injection H as <-. discriminate.
Qed.

(** When the body of the outer [try] fails before the conversion, the
    output path is as absent as it was. *)
Lemma hoare_build (appPath : string) (sizeMB : Z) :
  hoare (absent host outputPath) (build host appPath outputPath sizeMB)
        (fun r fs => failedBeforeConversion r -> absent host outputPath fs).
Proof.
  unfold build.
  apply hoare_bind with (R := fun _ fs => absent host outputPath fs); auto.
  { apply hoare_consoleLog. }
  intros _. apply hoare_bind with (R := fun _ fs => absent host outputPath fs); auto.
  { now apply hoare_execSync. }
  intros _. apply hoare_bind with (R := fun _ fs => absent host outputPath fs); auto.
  { apply hoare_consoleLog. }
  intros _. apply hoare_bind with (R := fun _ fs => absent host outputPath fs); auto.
  { now apply hoare_execSync. }
  intros mountOutput.
  destruct (Str.matchVolumes mountOutput) as [mountMatch|];
    [|intros fs H _; exact H].
  apply hoare_bind with (R := fun _ fs => absent host outputPath fs); auto.
  { apply hoare_consoleLog. }
  intros _. apply hoare_bind with (R := fun _ fs => absent host outputPath fs); auto.
  { apply hoare_tryFinally with (R := fun _ fs => absent host outputPath fs).
    - apply hoare_decorate.
    - intros r. apply hoare_detach. }
  intros _ fs _ Hfail. now apply convert_result in Hfail.
Qed.

End OutputAbsent.

(** C9.  Take any tool of which only the conversion creates the output
    artifact.  When [createDMG] fails in a stage from staging to
    unmounting, nothing exists at the output path afterwards: whatever was
    there, a final image of an earlier run in particular, was removed
    before the outer [try] and is not put back. *)
Theorem stale_output_not_restored_on_failure
  (host : Host) (appPath outputPath : string) (fs : Fs.node) :
  (forall command fs0,
     Str.startsWith "hdiutil convert" command = false ->
     Fs.stat (cwd host) fs0 outputPath = None ->
     Fs.stat (cwd host) (snd (tool host command fs0)) outputPath = None) ->
  failedBeforeConversion (res (createDMG host appPath outputPath fs)) ->
  Fs.stat (cwd host) (final (createDMG host appPath outputPath fs)) outputPath
  = None.
Proof.
  intros Hframe Hfail.
  destruct (createDMG_stages host appPath outputPath fs)
    as [[[(code & path & Hr)|[Hr _]] _]
       |(dir & appSize & fs1 & pre & _ & _ & _ & _ & Habs & Hr & Hf & _)].
  - rewrite Hr in Hfail. destruct Hfail as [H|(c & H & _)]; discriminate.
  - rewrite Hr in Hfail. destruct Hfail as [H|(c & H & _)]; discriminate.
  - cbv zeta in Hr, Hf. rewrite Hf. rewrite Hr in Hfail.
    unfold tryFinally, cleanup in *. cbn [res final] in *.
    pose proof (hoare_build host outputPath Hframe appPath
                  (requiredSizeMB appSize) fs1 Habs) as Hbuild.
    cbv beta in Hbuild.
    set (b := build host appPath outputPath (requiredSizeMB appSize) fs1) in *.
    destruct (unlinkIfExists_cases host (tempDmgPath outputPath) (final b))
      as [(Hok & _ & _ & Hkeep)|[code Hc]].
    + rewrite Hok in Hfail. apply Hkeep, Hbuild, Hfail.
    + rewrite Hc in Hfail. cbn [res] in Hfail.
      destruct Hfail as [H|(c & H & _)]; discriminate.
Qed.

(** The simulated utility creates the output artifact in the conversion
    only. *)
Lemma simulated_tool_frame (failing command : string) (fs : Fs.node) :
  Str.startsWith "hdiutil convert" command = false ->
  Fs.stat ["work"] fs ".build/Code.dmg" = None ->
  Fs.stat ["work"]
    (snd (Sim.hdiutil failing ["work"; ".build"; "Code-temp.dmg"]
            ["work"; ".build"; "Code.dmg"] command fs))
    ".build/Code.dmg" = None.
Proof.
  intros Hsafe.
  rewrite !(stat_descending ["work"] _ ".build/Code.dmg")
    by (discriminate || reflexivity).
  change (Path.normalizeString false (Fs.segments ["work"] ".build/Code.dmg"))
    with ["work"; ".build"; "Code.dmg"].
  intros Habs. unfold Sim.hdiutil. rewrite Hsafe.
  repeat match goal with
         | |- context [if ?b then _ else _] => destruct b
         end; try exact Habs;
    unfold Sim.orElse;
    match goal with
    | |- context [Fs.writeAt ?n ?p ?v] =>
        destruct (Fs.writeAt n p v) as [code|fs'] eqn:Hw; [exact Habs|];
        cbn [snd];
        rewrite (lookup_writeAt_diverge _ _ _ _
                   ["work"; ".build"; "Code.dmg"] Hw eq_refl);
        exact Habs
    end.
Qed.

Lemma stale_output_not_restored_on_failure_witness :
  let host := Sim.machine "hdiutil attach" in
  let o := createDMG host ".build/Code.app" ".build/Code.dmg" Sim.disk in
  Fs.stat (cwd host) Sim.disk ".build/Code.dmg" = Some (Fs.File 123) /\
  failedBeforeConversion (res o) /\
  Fs.stat (cwd host) (final o) ".build/Code.dmg" = None.
Proof.
  assert (Hfail : failedBeforeConversion
                    (res (createDMG (Sim.machine "hdiutil attach")
                            ".build/Code.app" ".build/Code.dmg" Sim.disk))).
  { right. eexists. split; [vm_compute; reflexivity | reflexivity]. }
  split; [reflexivity|]. split; [exact Hfail|].
  apply (stale_output_not_restored_on_failure (Sim.machine "hdiutil attach")).
  - intros command fs0 Hsafe Habs.
    exact (simulated_tool_frame "hdiutil attach" command fs0 Hsafe Habs).
  - exact Hfail.
Defined.

(** * The volume decorator *)

(** C7.  On a volume that already holds the shortcut, the decoration step
    does nothing: no command is run, no line is logged, the file system is
    the same.  Hence, with a link command that leaves the shortcut in place
    when it succeeds, decorating twice is the same as decorating once. *)
Theorem decoration_is_idempotent (host : Host) (mountPoint : string) :
  (forall fs,
     Fs.stat (cwd host) fs (Path.join mountPoint "Applications") <> None ->
     decorate host mountPoint fs = Outcome (Ok tt) fs []) /\
  ((forall fs stdout fs',
      tool host (linkCommand (Path.join mountPoint "Applications")) fs
      = (Some stdout, fs') ->
      Fs.stat (cwd host) fs' (Path.join mountPoint "Applications") <> None) ->
   forall fs,
     bind (decorate host mountPoint) (fun _ => decorate host mountPoint) fs =
     decorate host mountPoint fs).
Proof.
  assert (Hnoop : forall fs,
             Fs.stat (cwd host) fs (Path.join mountPoint "Applications")
             <> None ->
             decorate host mountPoint fs = Outcome (Ok tt) fs []).
  { intros fs Hlink. unfold decorate, bind, existsSync. cbn [res final events].
    destruct (Fs.stat _ _ _); [reflexivity | contradiction]. }
  split; [exact Hnoop|].
  intros Hln fs.
  unfold bind at 1.
  destruct (Fs.stat (cwd host) fs (Path.join mountPoint "Applications"))
    as [link|] eqn:Hs.
  - rewrite (Hnoop fs) by (rewrite Hs; discriminate). cbn [res final events].
    rewrite (Hnoop fs) by (rewrite Hs; discriminate). reflexivity.
  - assert (Hrun : decorate host mountPoint fs =
             match tool host
                     (linkCommand (Path.join mountPoint "Applications")) fs
             with
             | (Some _, fs') =>
                 Outcome (Ok tt) fs'
                   [ExecSync (linkCommand
                                (Path.join mountPoint "Applications"));
                    ConsoleLog "Added Applications symlink"]
             | (None, fs') =>
                 Outcome (Throw (ExecFailed
                                   (linkCommand
                                      (Path.join mountPoint "Applications"))))
                   fs'
                   [ExecSync (linkCommand
                                (Path.join mountPoint "Applications"))]
             end).
    { unfold decorate, bind, existsSync, execSync, consoleLog, emit.
      cbn [res final events]. rewrite Hs. cbn [negb].
      now destruct (tool host _ fs) as [[stdout|] fs']. }
    rewrite Hrun.
    destruct (tool host _ fs) as [[stdout|] fs'] eqn:Ht;
      cbn [res final events]; [|reflexivity].
    rewrite (Hnoop fs' (Hln _ _ _ Ht)). cbn [res final events app].
    reflexivity.
Qed.

Lemma simulated_link_stays (fs : Fs.node) (stdout : string) (fs' : Fs.node) :
  tool (Sim.machine "")
       (linkCommand (Path.join "/Volumes/Code - OSS" "Applications")) fs
  = (Some stdout, fs') ->
  Fs.stat (cwd (Sim.machine "")) fs'
          (Path.join "/Volumes/Code - OSS" "Applications") <> None.
Proof.
  change (tool (Sim.machine "")
               (linkCommand (Path.join "/Volumes/Code - OSS" "Applications"))
               fs)
    with (Sim.orElse fs
            (Fs.writeAt fs ["Volumes"; "Code - OSS"; "Applications"]
               (Fs.Dir 0 []))).
  unfold Sim.orElse.
  destruct (Fs.writeAt fs _ _) as [code|fs''] eqn:Hw; [discriminate|].
  intros [= _ <-].
  rewrite stat_descending by (discriminate || reflexivity).
  change (Path.normalizeString false
            (Fs.segments (cwd (Sim.machine ""))
               (Path.join "/Volumes/Code - OSS" "Applications")))
    with ["Volumes"; "Code - OSS"; "Applications"].
  rewrite (lookup_writeAt_same _ _ _ _ Hw). discriminate.
Qed.

Lemma decoration_is_idempotent_witness :
  let host := Sim.machine "" in
  let once := decorate host "/Volumes/Code - OSS" Sim.attached in
  events once =
    [ExecSync (linkCommand "/Volumes/Code - OSS/Applications");
     ConsoleLog "Added Applications symlink"] /\
  decorate host "/Volumes/Code - OSS" (final once) =
    Outcome (Ok tt) (final once) [] /\
  bind (decorate host "/Volumes/Code - OSS")
       (fun _ => decorate host "/Volumes/Code - OSS") Sim.attached = once.
Proof.
  split; [reflexivity|]. split.
  - apply (proj1 (decoration_is_idempotent (Sim.machine "")
                    "/Volumes/Code - OSS")).
    vm_compute. discriminate.
  - apply (proj2 (decoration_is_idempotent (Sim.machine "")
                    "/Volumes/Code - OSS")).
    exact simulated_link_stays.
Defined.

(** * The output directory *)



Lemma size_is_total_of_regular_files_witness :
  readable Sim.bundle = true /\
  (Size Sim.bundle <= 2 ^ 53)%N /\
  Fs.getDirectorySize Sim.bundle = inr 838860800%N /\
  Fs.getDirectorySize
    (Fs.Dir 96
       [("Contents",
         Fs.Dir 128
           [("MacOS", Fs.Dir 64 [("Code", Fs.File 838000000)]);
            ("Info.plist", Fs.File 2048);
            ("Resources", Fs.Dir 64 [("app.asar", Fs.File 858752)])])])
  = Fs.getDirectorySize Sim.bundle.
Proof.
  assert (Hread : readable Sim.bundle = true) by reflexivity.
  assert (Hle : (Size Sim.bundle <= 2 ^ 53)%N) by (vm_compute; discriminate).
  split; [exact Hread|]. split; [exact Hle|].
  split; [exact (proj1 (size_is_total_of_regular_files 96 _ Hread Hle))|].
  apply (proj2 (size_is_total_of_regular_files 96 _ Hread Hle)).
  apply reordered_dir, reordered_skip; [|apply reordered_nil].
  apply reordered_dir, reordered_swap.
Defined.


(** * Further properties of the pipeline *)

(** ** The capacity plan *)

(** X1.  The planned capacity never decreases when the measured size
    grows, and it is never below the margin of 50. *)
Theorem capacity_is_monotone (size size' : N) :
  (size <= size')%N ->
  (50 <= requiredSizeMB size <= requiredSizeMB size')%Z.
Proof.
  intros Hle.
  pose proof (requiredSizeMB_bounds size) as H.
  pose proof (requiredSizeMB_bounds size') as H'.
  lia.
Qed.

Lemma capacity_is_monotone_witness :
  (1048576 <= 1048577)%N /\
  (50 <= requiredSizeMB 1048576 <= requiredSizeMB 1048577)%Z /\
  requiredSizeMB 1048576 = 51%Z /\ requiredSizeMB 1048577 = 52%Z.
Proof.
  split; [lia|]. split; [apply capacity_is_monotone; lia|].
  split; reflexivity.
Defined.

(** ** The staging path *)

Lemma startsWith_split (p : string) :
  forall s, Str.startsWith p s = true ->
            s = p ++ Str.drop (String.length p) s.
Proof.
  induction p as [|a p IH]; intros s H; simpl in *.
  - now destruct s.
  - destruct s as [|b s]; [discriminate|].
    apply andb_true_iff in H as [Hab Hs].
    apply Ascii.eqb_eq in Hab. subst b. simpl. f_equal. now apply IH.
Qed.

Lemma replace_no_occurrence (p r : string) :
  forall s, Str.indexOf p s = None -> Str.replace p r s = s.
Proof.
  induction s as [|c s IH]; simpl.
  - now destruct (Str.startsWith p "").
  - destruct (Str.startsWith p (String c s)); [discriminate|].
    destruct (Str.indexOf p s); [discriminate|].
    intros _. now rewrite IH.
Qed.

Lemma replace_occurrence_length :
  forall s i, Str.indexOf ".dmg" s = Some i ->
    String.length (Str.replace ".dmg" "-temp.dmg" s) = String.length s + 5.
Proof.
  induction s as [|c s IH]; intros i.
  - simpl. discriminate.
  - cbn [Str.indexOf Str.replace].
    destruct (Str.startsWith ".dmg" (String c s)) eqn:Hpre.
    + intros _. apply startsWith_split in Hpre.
      rewrite Hpre at 2. rewrite !length_app. simpl. lia.
    + destruct (Str.indexOf ".dmg" s) as [j|]; [|discriminate].
      intros _. simpl. now rewrite (IH j eq_refl).
Qed.

(** X2.  The staging path coincides with the output path exactly when the
    output path holds no [.dmg]; otherwise it is five characters longer. *)
Theorem staging_path_collides_without_extension (outputPath : string) :
  (tempDmgPath outputPath = outputPath <->
   Str.indexOf ".dmg" outputPath = None) /\
  (Str.indexOf ".dmg" outputPath <> None ->
   String.length (tempDmgPath outputPath) = String.length outputPath + 5).
Proof.
  unfold tempDmgPath. split; [split|].
  - intros Heq. destruct (Str.indexOf ".dmg" outputPath) as [i|] eqn:Hi;
      [|reflexivity].
    apply replace_occurrence_length in Hi. rewrite Heq in Hi. lia.
  - apply replace_no_occurrence.
  - intros Hocc. destruct (Str.indexOf ".dmg" outputPath) as [i|] eqn:Hi;
      [|congruence].
    now apply replace_occurrence_length in Hi.
Qed.

Lemma staging_path_collides_without_extension_witness :
  Str.indexOf ".dmg" "dist/Code.dmg.zip" <> None /\
  String.length (tempDmgPath "dist/Code.dmg.zip") =
    String.length "dist/Code.dmg.zip" + 5 /\
  tempDmgPath "dist/Code.dmg.zip" = "dist/Code-temp.dmg.zip".
Proof.
  assert (H : Str.indexOf ".dmg" "dist/Code.dmg.zip" <> None)
    by (simpl; discriminate).
  split; [exact H|]. split; [|reflexivity].
  exact (proj2 (staging_path_collides_without_extension "dist/Code.dmg.zip") H).
Defined.

(** ** A source path that is not a directory *)

(** X5.  When the source path names something that is not a directory,
    [createDMG] fails in [readdirSync] with [ENOTDIR] before anything is
    logged, removed, created or run. *)
Theorem file_as_bundle_fails_without_effects
  (host : Host) (appPath outputPath : string) (fs : Fs.node) (sz : N) :
  Fs.stat (cwd host) fs appPath = Some (Fs.File sz) ->
  createDMG host appPath outputPath fs =
  Outcome (Throw (FsFailed Fs.ENOTDIR appPath)) fs [].
Proof.
  intros Hfile.
  assert (Hvalidate : validate host appPath fs = Outcome (Ok tt) fs []).
  { destruct (validate_cases host appPath fs) as [[_ H]|[H _]];
      [exact H | congruence]. }
  assert (Hplan : plan host appPath fs =
                  Outcome (Throw (FsFailed Fs.ENOTDIR appPath)) fs []).
  { unfold plan, bind, getDirectorySizeAt. now rewrite Hfile. }
  unfold createDMG.
  rewrite (bind_ok (validate host appPath) _ fs tt) by now rewrite Hvalidate.
  rewrite Hvalidate. cbn [res final events app].
  unfold bind. now rewrite Hplan.
Qed.

Lemma file_as_bundle_fails_without_effects_witness :
  Fs.stat (cwd (Sim.machine "")) Sim.disk ".build/Code.dmg"
    = Some (Fs.File 123) /\
  createDMG (Sim.machine "") ".build/Code.dmg" ".build/Out.dmg" Sim.disk =
  Outcome (Throw (FsFailed Fs.ENOTDIR ".build/Code.dmg")) Sim.disk [].
Proof.
  split; [reflexivity|].
  apply (file_as_bundle_fails_without_effects (Sim.machine "") _ _ _ 123).
  reflexivity.
Defined.

(** ** The shape of a run *)

Section RunShape.

Variable host : Host.

Lemma bind_log {B} (line : string) (k : unit -> M B) (fs : Fs.node) :
  bind (consoleLog line) k fs =
  Outcome (res (k tt fs)) (final (k tt fs)) (ConsoleLog line :: events (k tt fs)).
Proof. reflexivity. Qed.

Lemma bind_exec {B} (command : string) (k : string -> M B) (fs : Fs.node) :
  bind (execSync host command) k fs =
  match tool host command fs with
  | (Some stdout, fs') =>
      Outcome (res (k stdout fs')) (final (k stdout fs'))
              (ExecSync command :: events (k stdout fs'))
  | (None, fs') => Outcome (Throw (ExecFailed command)) fs' [ExecSync command]
  end.
Proof.
  unfold bind, execSync.
  now destruct (tool host command fs) as [[stdout|] fs'].
Qed.

(** The inner scope: the events of the decoration, then the detach; the
    failure of the detach command replaces the outcome of the decoration. *)
Lemma scope_shape (mountPoint : string) (fs : Fs.node) :
  let d := decorate host mountPoint fs in
  let s := tryFinally (decorate host mountPoint) (detach host mountPoint) fs in
  events s = (events d ++ [ConsoleLog "Unmounting...";
                           ExecSync (detachCommand mountPoint)])%list /\
  final s = snd (tool host (detachCommand mountPoint) (final d)) /\
  res s = match fst (tool host (detachCommand mountPoint) (final d)) with
          | Some _ => res d
          | None => Throw (ExecFailed (detachCommand mountPoint))
          end.
Proof.
  unfold tryFinally, detach. cbn [res final events].
  rewrite bind_log. cbn [res final events]. rewrite bind_exec.
  now destruct (tool host _ _) as [[stdout|] fs'].
Qed.

(** The conversion stage. *)
Lemma convert_shape (tempPath outputPath : string) (fs : Fs.node) :
  let c := convert host tempPath outputPath fs in
  (exists rest,
     events c = ConsoleLog "Converting to compressed DMG..." ::
                ExecSync (convertCommand tempPath outputPath) :: rest /\
     Forall notConversion rest /\
     (res c = Ok tt ->
      exists line,
        rest = [ConsoleLog ("DMG created successfully: " ++ outputPath);
                ConsoleLog line])) /\
  (res c = Ok tt -> Fs.stat (cwd host) (final c) outputPath <> None).
Proof.
  unfold convert. rewrite bind_log. cbn [res final events].
  rewrite bind_exec.
  destruct (tool host _ fs) as [[stdout|] fs']; cbn [res final events].
  - rewrite bind_log. cbn [res final events].
    unfold bind, statSync, consoleLog, emit.
    destruct (Fs.stat (cwd host) fs' outputPath) as [finalStats|] eqn:Hs;
      cbn [res final events app].
    + split; [|intros _; rewrite Hs; discriminate].
      eexists. split; [reflexivity|]. split.
      * repeat constructor.
      * intros _. eexists. reflexivity.
    + split; [|discriminate]. eexists. split; [reflexivity|]. split.
      * repeat constructor.
      * discriminate.
  - split; [|discriminate]. eexists. split; [reflexivity|]. split.
    + constructor.
    + discriminate.
Qed.

(** The body of the outer [try]: it stops at the create command, or at the
    attach command or the parsing of its output, or it goes through the
    inner scope and, when that ends normally, the conversion. *)
Lemma build_shape (appPath outputPath : string) (sizeMB : Z) (fs : Fs.node) :
  let b := build host appPath outputPath sizeMB fs in
  let tempPath := tempDmgPath outputPath in
  let create := ExecSync (createCommand host appPath sizeMB tempPath) in
  let attach := ExecSync (attachCommand tempPath) in
  (events b = [ConsoleLog "Creating temporary DMG..."; create] /\
   res b = Throw (ExecFailed (createCommand host appPath sizeMB tempPath))) \/
  (events b = [ConsoleLog "Creating temporary DMG..."; create;
               ConsoleLog "Mounting DMG to add Applications symlink...";
               attach] /\
   (res b = Throw (ExecFailed (attachCommand tempPath)) \/
    res b = Throw MountPointNotParsed)) \/
  (exists mountOutput mountMatch fs2,
     Str.matchVolumes mountOutput = Some mountMatch /\
     let mountPoint := Str.trim mountMatch in
     let s := tryFinally (decorate host mountPoint) (detach host mountPoint)
                fs2 in
     let c := convert host tempPath outputPath (final s) in
     events b =
       ([ConsoleLog "Creating temporary DMG..."; create;
         ConsoleLog "Mounting DMG to add Applications symlink..."; attach;
         ConsoleLog ("Mounted at: " ++ mountPoint)] ++
        events s ++
        match res s with
        | Ok _ => events c
        | Throw _ => []
        end)%list /\
     res b = match res s with
             | Ok _ => res c
             | Throw e => Throw e
             end /\
     final b = match res s with
               | Ok _ => final c
               | Throw _ => final s
               end).
Proof.
  cbv zeta. unfold build.
  rewrite bind_log. cbn [res final events]. rewrite bind_exec.
  destruct (tool host _ fs) as [[stdout1|] fs1]; cbn [res final events].
  2:{ left. now split. }
  rewrite bind_log. cbn [res final events]. rewrite bind_exec.
  destruct (tool host _ fs1) as [[mountOutput|] fs2]; cbn [res final events].
  2:{ right; left. split; [reflexivity | now left]. }
  destruct (Str.matchVolumes mountOutput) as [mountMatch|] eqn:Hm.
  2:{ right; left. split; [reflexivity | now right]. }
  right; right. exists mountOutput, mountMatch, fs2.
  split; [exact Hm|].
  rewrite bind_log. cbn [res final events].
  rewrite res_bind, final_bind, events_bind.
  repeat split.
Qed.

End RunShape.

(** ** What a run does and does not do *)

Section OwnEvents.

Variable host : Host.
Variable outputPath : string.

Lemma own_unlinkIfExists (path : string) :
  path = tempDmgPath outputPath \/ path = outputPath ->
  emits (ownEvent outputPath) (unlinkIfExists host path).
Proof. intros H. now apply emits_unlinkIfExists. Qed.

Lemma own_build (appPath : string) (sizeMB : Z) :
  emits (ownEvent outputPath) (build host appPath outputPath sizeMB).
Proof.
  apply emits_bind; [now apply emits_consoleLog|]. intros _.
  apply emits_bind; [apply emits_execSync; now left|]. intros _.
  apply emits_bind; [now apply emits_consoleLog|]. intros _.
  apply emits_bind; [apply emits_execSync; right; now left|].
  intros mountOutput.
  destruct (Str.matchVolumes mountOutput) as [mountMatch|];
    [|apply emits_throw].
  apply emits_bind; [now apply emits_consoleLog|]. intros _.
  apply emits_bind.
  - apply emits_tryFinally.
    + apply emits_bind; [apply emits_existsSync|]. intros present.
      apply emits_if; [|apply emits_ret].
      apply emits_bind; [|intros _; now apply emits_consoleLog].
      apply emits_execSync. do 4 right. reflexivity.
    + apply emits_bind; [now apply emits_consoleLog|]. intros _.
      apply emits_bind; [|intros _; apply emits_ret].
      apply emits_execSync. right; right; now left.
  - intros _.
    apply emits_bind; [now apply emits_consoleLog|]. intros _.
    apply emits_bind; [apply emits_execSync; do 3 right; now left|].
    intros _.
    apply emits_bind; [now apply emits_consoleLog|]. intros _.
    apply emits_bind; [apply emits_statSync|]. intros finalStats.
    now apply emits_consoleLog.
Qed.

End OwnEvents.

(** X6.  A run of [createDMG] removes nothing but the staging path and
    the output path, creates no directory but the one of the output path,
    runs no command but the four [hdiutil] verbs and [ln -s /Applications],
    and prints no failure report of its own. *)
Theorem run_touches_own_artifacts_only
  (host : Host) (appPath outputPath : string) (fs : Fs.node) :
  Forall (ownEvent outputPath) (events (createDMG host appPath outputPath fs)).
Proof.
  revert fs. change (emits (ownEvent outputPath)
                       (createDMG host appPath outputPath)).
  apply emits_bind.
  { apply emits_bind; [apply emits_existsSync|]. intros present.
    apply emits_if; [apply emits_throw | apply emits_ret]. }
  intros _. apply emits_bind.
  { apply emits_bind; [apply emits_getDirectorySizeAt|]. intros appSize.
    apply emits_bind; [now apply emits_consoleLog|]. intros _.
    apply emits_bind; [now apply emits_consoleLog|]. intros _.
    apply emits_ret. }
  intros sizeMB. apply emits_bind.
  { apply emits_bind; [apply emits_existsSync|]. intros present.
    apply emits_if; [now apply emits_mkdirSync | apply emits_ret]. }
  intros _. apply emits_bind.
  { apply emits_bind; [apply own_unlinkIfExists; now left|]. intros _.
    apply own_unlinkIfExists. now right. }
  intros _. apply emits_tryFinally; [apply own_build|].
  apply own_unlinkIfExists. now left.
Qed.

(** ** The mount point *)

Section MountPoint.

Lemma matchVolumes_unfold (s : string) :
  Str.matchVolumes s =
  match (if Str.startsWith "/Volumes/" s then
           match Str.line (Str.drop 9 s) with
           | "" => None
           | rest => Some ("/Volumes/" ++ rest)
           end
         else None)
  with
  | Some m => Some m
  | None => match s with
            | "" => None
            | String _ s' => Str.matchVolumes s'
            end
  end.
Proof. now destruct s. Qed.

Lemma noNewline_line (s : string) : noNewline (Str.line s) = true.
Proof.
  induction s as [|c s IH]; simpl; [reflexivity|].
  destruct (Ascii.eqb c Str.newline) eqn:E; simpl; [reflexivity|].
  now rewrite E.
Qed.

(** A match is the literal followed by a non-empty rest of one line. *)
Lemma matchVolumes_shape :
  forall s m, Str.matchVolumes s = Some m ->
    exists rest, m = "/Volumes/" ++ rest /\ rest <> "" /\
                 noNewline rest = true.
Proof.
  induction s as [|c s IH]; intros m; rewrite matchVolumes_unfold.
  - simpl. discriminate.
  - destruct (Str.startsWith "/Volumes/" (String c s)); [|apply IH].
    pose proof (noNewline_line (Str.drop 9 (String c s))) as Hline.
    destruct (Str.line (Str.drop 9 (String c s))) as [|a rest];
      [apply IH|].
    intros [= <-]. exists (String a rest). repeat split; [discriminate|].
    exact Hline.
Qed.

Lemma trimEnd_cons (c : ascii) (s : string) :
  Str.isSpace c = false ->
  Str.trimEnd (String c s) = String c (Str.trimEnd s).
Proof. intros Hc. simpl. rewrite Hc. now destruct (Str.trimEnd s). Qed.

Lemma noNewline_trimEnd (s : string) :
  noNewline s = true -> noNewline (Str.trimEnd s) = true.
Proof.
  induction s as [|c s IH]; simpl; [reflexivity|].
  intros H. apply andb_true_iff in H as [Hc Hs]. specialize (IH Hs).
  destruct (Str.trimEnd s) as [|a t].
  - destruct (Str.isSpace c); simpl; [reflexivity | now rewrite Hc].
  - simpl in *. now rewrite Hc, IH.
Qed.

Lemma trim_volumes (rest : string) :
  Str.trim ("/Volumes/" ++ rest) = "/Volumes/" ++ Str.trimEnd rest.
Proof.
  unfold Str.trim. cbn [append Str.trimStart].
  change (Str.isSpace "/") with false. cbv iota.
  now rewrite !trimEnd_cons by reflexivity.
Qed.

End MountPoint.

Section MountedLog.

Variable host : Host.

Lemma notMounted_decorate (mountPoint : string) (fs : Fs.node) :
  Forall notMounted (events (decorate host mountPoint fs)).
Proof. apply emits_decorate; [intros c; exact I | reflexivity]. Qed.

Lemma notMounted_convert (tempPath outputPath : string) (fs : Fs.node) :
  Forall notMounted (events (convert host tempPath outputPath fs)).
Proof. apply emits_convert; [intros c; exact I | intros l Hl; exact Hl]. Qed.

Lemma not_in_notMounted (mountPoint : string) (l : list event) :
  Forall notMounted l ->
  ~ In (ConsoleLog ("Mounted at: " ++ mountPoint)) l.
Proof.
  intros Hl Hin. rewrite Forall_forall in Hl. apply Hl in Hin.
  simpl in Hin. discriminate.
Qed.

(** The announced mount point is the trimmed match of the attach output. *)
Lemma mounted_log_source_build (appPath outputPath : string) (sizeMB : Z)
  (fs : Fs.node) (mountPoint : string) :
  In (ConsoleLog ("Mounted at: " ++ mountPoint))
     (events (build host appPath outputPath sizeMB fs)) ->
  exists mountOutput mountMatch,
    Str.matchVolumes mountOutput = Some mountMatch /\
    mountPoint = Str.trim mountMatch.
Proof.
  destruct (build_shape host appPath outputPath sizeMB fs)
    as [[Hev _]|[[Hev _]|(mountOutput & mountMatch & fs2 & Hm & Hev & _)]];
    cbv zeta in Hev; rewrite Hev; clear Hev.
  - simpl. intros [H|[H|[]]]; discriminate.
  - simpl. intros [H|[H|[H|[H|[]]]]]; discriminate.
  - intros Hin. exists mountOutput, mountMatch. split; [exact Hm|].
    apply in_app_or in Hin as [Hin|Hin].
    + simpl in Hin. destruct Hin as [H|[H|[H|[H|[H|[]]]]]]; try discriminate.
      now injection H.
    + exfalso. apply in_app_or in Hin as [Hin|Hin].
      * destruct (scope_shape host (Str.trim mountMatch) fs2) as [Hs _].
        cbv zeta in Hs. rewrite Hs in Hin.
        apply in_app_or in Hin as [Hin|Hin].
        -- exact (not_in_notMounted _ _ (notMounted_decorate _ _) Hin).
        -- simpl in Hin. destruct Hin as [H|[H|[]]]; discriminate.
      * destruct (res _); [|exact Hin].
        exact (not_in_notMounted _ _ (notMounted_convert _ _ _) Hin).
Qed.

Lemma mounted_log_source (appPath outputPath : string) (fs : Fs.node)
  (mountPoint : string) :
  In (ConsoleLog ("Mounted at: " ++ mountPoint))
     (events (createDMG host appPath outputPath fs)) ->
  exists mountOutput mountMatch,
    Str.matchVolumes mountOutput = Some mountMatch /\
    mountPoint = Str.trim mountMatch.
Proof.
  intros Hin.
  destruct (createDMG_stages host appPath outputPath fs)
    as [[_ Hpre]
       |(dir & appSize & fs1 & pre0 & _ & _ & Hpre & _ & _ & _ & _ & Hev)].
  - rewrite Forall_forall in Hpre. apply Hpre in Hin.
    now apply not_prelude_mounted in Hin.
  - cbv zeta in Hev. rewrite Hev in Hin.
    unfold tryFinally in Hin. cbn [events] in Hin.
    apply in_app_or in Hin as [Hin|Hin].
    { rewrite Forall_forall in Hpre. apply Hpre in Hin.
      now apply not_prelude_mounted in Hin. }
    apply in_app_or in Hin as [Hin|Hin].
    + exact (mounted_log_source_build _ _ _ _ _ Hin).
    + exfalso. revert Hin. apply not_in_notMounted.
      apply emits_unlinkIfExists. exact I.
Qed.

End MountedLog.

(** X7.  The mount point a run announces, and then detaches, is always a
    path that starts with [/Volumes/] and holds no line feed, whatever the
    attach command printed. *)
Theorem mount_point_is_under_Volumes
  (host : Host) (appPath outputPath : string) (fs : Fs.node)
  (mountPoint : string) :
  In (ConsoleLog ("Mounted at: " ++ mountPoint))
     (events (createDMG host appPath outputPath fs)) ->
  Str.startsWith "/Volumes/" mountPoint = true /\
  noNewline mountPoint = true.
Proof.
  intros Hin.
  destruct (mounted_log_source host _ _ _ _ Hin)
    as (mountOutput & mountMatch & Hm & ->).
  destruct (matchVolumes_shape _ _ Hm) as (rest & -> & _ & Hline).
  rewrite trim_volumes. split; [reflexivity|].
  simpl. now apply noNewline_trimEnd.
Qed.

Lemma mount_point_is_under_Volumes_witness :
  let o := createDMG (Sim.machine "hdiutil detach") ".build/Code.app"
             ".build/Code.dmg" Sim.disk in
  In (ConsoleLog ("Mounted at: " ++ "/Volumes/Code - OSS")) (events o) /\
  Str.startsWith "/Volumes/" "/Volumes/Code - OSS" = true /\
  noNewline "/Volumes/Code - OSS" = true.
Proof.
  assert (H : In (ConsoleLog ("Mounted at: " ++ "/Volumes/Code - OSS"))
                (events (createDMG (Sim.machine "hdiutil detach")
                           ".build/Code.app" ".build/Code.dmg" Sim.disk))).
  { vm_compute. do 8 right. left. reflexivity. }
  split; [exact H|].
  exact (mount_point_is_under_Volumes (Sim.machine "hdiutil detach") _ _ _ _ H).
Defined.

(** ** Exceptions in the [finally] blocks *)

(** X11.  The inner scope ends with the log line and the detach command
    after whatever the decoration did; when the detach command fails, its
    failure is what the scope throws, also when the decoration had failed
    itself; when it succeeds, the scope ends as the decoration did. *)
Theorem detach_failure_replaces_decoration_outcome
  (host : Host) (mountPoint : string) (fs : Fs.node) :
  let d := decorate host mountPoint fs in
  let s := tryFinally (decorate host mountPoint) (detach host mountPoint) fs in
  events s = (events d ++ [ConsoleLog "Unmounting...";
                           ExecSync (detachCommand mountPoint)])%list /\
  (fst (tool host (detachCommand mountPoint) (final d)) = None ->
   res s = Throw (ExecFailed (detachCommand mountPoint))) /\
  (fst (tool host (detachCommand mountPoint) (final d)) <> None ->
   res s = res d).
Proof.
  destruct (scope_shape host mountPoint fs) as (Hev & _ & Hres).
  cbv zeta in *. rewrite Hres. split; [exact Hev|].
  destruct (fst (tool host _ _)); split; congruence.
Qed.

Lemma detach_failure_replaces_decoration_outcome_witness :
  let d := decorate Sim.broken "/Volumes/Code - OSS" Sim.attached in
  let s := tryFinally (decorate Sim.broken "/Volumes/Code - OSS")
             (detach Sim.broken "/Volumes/Code - OSS") Sim.attached in
  res d = Throw (ExecFailed (linkCommand "/Volumes/Code - OSS/Applications")) /\
  res s = Throw (ExecFailed (detachCommand "/Volumes/Code - OSS")).
Proof.
  split; [reflexivity|].
  apply (proj1 (proj2 (detach_failure_replaces_decoration_outcome
                         Sim.broken "/Volumes/Code - OSS" Sim.attached))).
  reflexivity.
Defined.

(** ** The final state of a run *)

Section MoreFsFacts.

Import Fs.

(** [unlink] refuses a directory. *)
Lemma unlink_directory :
  forall p n sz es,
    lookup n p = Some (Dir sz es) -> unlink n p = inl EISDIR.
Proof.
  induction p as [|c p IH]; intros n sz es H; [reflexivity|].
  simpl in *. destruct n as [|nsz nes|]; try discriminate.
  destruct (find c nes) as [child|]; [|discriminate].
  destruct p as [|c' p'].
  - simpl in H. injection H as ->. reflexivity.
  - now rewrite (IH child sz es H).
Qed.

End MoreFsFacts.

Section FinalState.

Variable host : Host.

(** The guarded removal of one path keeps what exists at another. *)
Lemma unlinkIfExists_keeps (path other : string) (fs : Fs.node) :
  Fs.resolve (cwd host) path <> Fs.resolve (cwd host) other ->
  Fs.stat (cwd host) fs other <> None ->
  Fs.stat (cwd host) (final (unlinkIfExists host path fs)) other <> None.
Proof.
  intros Hne Hother.
  unfold unlinkIfExists, bind, existsSync. cbn [res final].
  destruct (Fs.stat (cwd host) fs path) eqn:Hs; cbn [final]; [|exact Hother].
  unfold unlinkSync.
  destruct (Fs.locate (cwd host) fs path) as [code|p] eqn:Hp;
    [exact Hother|].
  destruct (Fs.unlink fs p) as [code|fs'] eqn:Hu; cbn [final]; [exact Hother|].
  destruct (Fs.stat (cwd host) fs other) as [found|] eqn:Hso; [|congruence].
  apply stat_Some in Hso as (q & Hq & Hfound & Hlive).
  assert (Hpq : q <> p).
  { intros ->. apply Hne.
    now rewrite (locate_resolve _ _ _ _ Hp), (locate_resolve _ _ _ _ Hq). }
  assert (Hq' : Fs.locate (cwd host) fs' other = inr q).
  { apply locate_transfer with (root := fs); [|exact Hq].
    intros l. now rewrite (isDir_unlink _ _ _ l Hu). }
  rewrite (stat_located _ _ _ _ Hq').
  pose proof (kind_unlink _ _ _ _ Hu Hpq) as Hk. rewrite Hfound in Hk.
  destruct (Fs.lookup fs' q) as [[| |]|], found; simpl in Hk; congruence.
Qed.

(** A run that returns normally went through the body of the outer [try]
    and the cleanup without an exception. *)
Lemma success_stages (appPath outputPath : string) (fs : Fs.node) :
  res (createDMG host appPath outputPath fs) = Ok tt ->
  exists appSize fs1 pre,
    let b := build host appPath outputPath (requiredSizeMB appSize) fs1 in
    let c := cleanup host outputPath (final b) in
    Forall preludeEvent pre /\
    res b = Ok tt /\ res c = Ok tt /\
    final (createDMG host appPath outputPath fs) = final c /\
    events (createDMG host appPath outputPath fs) =
      (pre ++ events b ++ events c)%list.
Proof.
  intros Hok.
  destruct (createDMG_stages host appPath outputPath fs)
    as [[[(code & path & Hr)|[Hr _]] _]
       |(dir & appSize & fs1 & pre & _ & _ & Hpre & _ & _ & Hr & Hf & Hev)];
    try congruence.
  exists appSize, fs1, pre. cbv zeta in *.
  unfold tryFinally in *. cbn [res final events] in *.
  rewrite Hr in Hok.
  destruct (res (cleanup host outputPath _)) as [[]|e]; [|discriminate].
  repeat split; auto.
Qed.

Lemma success_removes_staging (appPath outputPath : string) (fs : Fs.node) :
  res (createDMG host appPath outputPath fs) = Ok tt ->
  Fs.stat (cwd host) (final (createDMG host appPath outputPath fs))
          (tempDmgPath outputPath) = None.
Proof.
  intros Hok.
  destruct (success_stages _ _ _ Hok)
    as (appSize & fs1 & pre & _ & _ & Hc & Hf & _).
  cbv zeta in *. rewrite Hf. unfold cleanup in *.
  destruct (unlinkIfExists_cases host (tempDmgPath outputPath)
              (final (build host appPath outputPath
                        (requiredSizeMB appSize) fs1)))
    as [(_ & _ & Hgone & _)|[code Hfail]]; [exact Hgone|].
  rewrite Hfail in Hc. discriminate.
Qed.

Lemma success_keeps_output (appPath outputPath : string) (fs : Fs.node) :
  Fs.resolve (cwd host) (tempDmgPath outputPath)
    <> Fs.resolve (cwd host) outputPath ->
  res (createDMG host appPath outputPath fs) = Ok tt ->
  Fs.stat (cwd host) (final (createDMG host appPath outputPath fs))
          outputPath <> None.
Proof.
  intros Hne Hok.
  destruct (success_stages _ _ _ Hok)
    as (appSize & fs1 & pre & _ & Hb & _ & Hf & _).
  cbv zeta in *. rewrite Hf. unfold cleanup.
  apply unlinkIfExists_keeps; [exact Hne|].
  destruct (build_shape host appPath outputPath (requiredSizeMB appSize) fs1)
    as [[_ Hr]|[[_ [Hr|Hr]]|(mo & mm & fs2 & _ & _ & Hr & Hfb)]];
    cbv zeta in *; try congruence.
  rewrite Hfb. rewrite Hr in Hb.
  destruct (res (tryFinally _ _ fs2)); [|discriminate].
  now apply convert_shape.
Qed.

End FinalState.

(** X3.  For an output path without [.dmg] the staging path is the output
    path itself, and so a run that returns normally has removed its own
    result: nothing exists at the output path afterwards. *)
Theorem output_without_extension_is_removed
  (host : Host) (appPath outputPath : string) (fs : Fs.node) :
  Str.indexOf ".dmg" outputPath = None ->
  res (createDMG host appPath outputPath fs) = Ok tt ->
  Fs.stat (cwd host) (final (createDMG host appPath outputPath fs)) outputPath
  = None.
Proof.
  intros Hnone Hok.
  pose proof (success_removes_staging host _ _ _ Hok) as Hgone.
  unfold tempDmgPath in Hgone.
  now rewrite (replace_no_occurrence _ _ _ Hnone) in Hgone.
Qed.

Lemma output_without_extension_is_removed_witness :
  let host := Sim.machineAt (Fs.File 900000000) ""
                ["work"; ".build"; "Code.img"] ["work"; ".build"; "Code.img"] in
  let o := createDMG host ".build/Code.app" ".build/Code.img" Sim.disk in
  Str.indexOf ".dmg" ".build/Code.img" = None /\
  res o = Ok tt /\
  In (ConsoleLog "DMG created successfully: .build/Code.img") (events o) /\
  Fs.stat (cwd host) (final o) ".build/Code.img" = None.
Proof.
  split; [reflexivity|]. split; [reflexivity|]. split.
  - vm_compute. do 13 right. left. reflexivity.
  - apply (output_without_extension_is_removed
             (Sim.machineAt (Fs.File 900000000) ""
                ["work"; ".build"; "Code.img"] ["work"; ".build"; "Code.img"]));
      reflexivity.
Defined.

(** X4.  Exit status 0 means that two arguments were given, that nothing
    is left at the staging path and that, unless the staging path and the
    output path name the same entry, the final artifact exists at the
    output path. *)
Theorem exit_status_zero_means_artifact
  (host : Host) (args : list string) (fs fs' : Fs.node) (evs : list event) :
  main host args fs = (0%Z, fs', evs) ->
  exists appPath outputPath rest,
    args = appPath :: outputPath :: rest /\
    Fs.stat (cwd host) fs' (tempDmgPath outputPath) = None /\
    (Fs.resolve (cwd host) (tempDmgPath outputPath)
       <> Fs.resolve (cwd host) outputPath ->
     Fs.stat (cwd host) fs' outputPath <> None).
Proof.
  destruct args as [|appPath [|outputPath rest]]; try discriminate.
  unfold main.
  destruct (res (createDMG host appPath outputPath fs)) as [[]|err] eqn:Hok;
    [|discriminate].
  intros [= <- _]. exists appPath, outputPath, rest.
  split; [reflexivity|]. split.
  - now apply success_removes_staging.
  - intros Hne. now apply success_keeps_output.
Qed.

Lemma exit_status_zero_means_artifact_witness :
  let run := main (Sim.machine "") [".build/Code.app"; ".build/Code.dmg"]
               Sim.disk in
  fst (fst run) = 0%Z /\
  Fs.stat (cwd (Sim.machine "")) (snd (fst run)) ".build/Code-temp.dmg"
    = None /\
  Fs.stat (cwd (Sim.machine "")) (snd (fst run)) ".build/Code.dmg" <> None.
Proof.
  split; [reflexivity|].
  destruct (exit_status_zero_means_artifact (Sim.machine "")
              [".build/Code.app"; ".build/Code.dmg"] Sim.disk
              (snd (fst (main (Sim.machine "")
                           [".build/Code.app"; ".build/Code.dmg"] Sim.disk)))
              (snd (main (Sim.machine "")
                      [".build/Code.app"; ".build/Code.dmg"] Sim.disk)))
    as (appPath & outputPath & rest & Hargs & Hgone & Hkept).
  - reflexivity.
  - injection Hargs as <- <- _. split; [exact Hgone|].
    apply Hkept. vm_compute. discriminate.
Defined.

(** X12.  When the body of the outer [try] ends with a directory at the
    staging path, the removal in the outer [finally] throws, and that
    exception is what the scope ends with, whatever the body had done; the
    directory stays. *)
Theorem cleanup_failure_replaces_outcome
  (host : Host) (appPath outputPath : string) (sizeMB : Z) (fs : Fs.node)
  (sz : N) (es : list (string * Fs.node)) :
  let b := build host appPath outputPath sizeMB fs in
  let t := tryFinally (build host appPath outputPath sizeMB)
                      (cleanup host outputPath) fs in
  Fs.stat (cwd host) (final b) (tempDmgPath outputPath) = Some (Fs.Dir sz es) ->
  res t = Throw (FsFailed Fs.EISDIR (tempDmgPath outputPath)) /\
  final t = final b /\ events t = events b.
Proof.
  cbv zeta. intros Hdir.
  unfold tryFinally, cleanup, unlinkIfExists, bind, existsSync.
  cbn [res final events]. rewrite Hdir. cbn [res final events].
  unfold unlinkSync.
  apply stat_Some in Hdir as (p & Hp & Hfound & _).
  rewrite Hp, (unlink_directory _ _ _ _ Hfound). cbn [res final events].
  now rewrite !app_nil_r.
Qed.

Lemma cleanup_failure_replaces_outcome_witness :
  let host := Sim.machineAt (Fs.Dir 0 []) "hdiutil attach"
                ["work"; ".build"; "Code-temp.dmg"]
                ["work"; ".build"; "Code.dmg"] in
  let b := build host ".build/Code.app" ".build/Code.dmg" 850 Sim.disk in
  let t := tryFinally (build host ".build/Code.app" ".build/Code.dmg" 850)
                      (cleanup host ".build/Code.dmg") Sim.disk in
  res b = Throw (ExecFailed (attachCommand ".build/Code-temp.dmg")) /\
  res t = Throw (FsFailed Fs.EISDIR (tempDmgPath ".build/Code.dmg")) /\
  final t = final b /\ events t = events b.
Proof.
  split; [reflexivity|].
  apply (cleanup_failure_replaces_outcome
           (Sim.machineAt (Fs.Dir 0 []) "hdiutil attach"
              ["work"; ".build"; "Code-temp.dmg"]
              ["work"; ".build"; "Code.dmg"])
           ".build/Code.app" ".build/Code.dmg" 850 Sim.disk 0 []).
  reflexivity.
Defined.

(** ** The order of the commands *)

Section CommandOrder.

Variable host : Host.

Lemma app_split_notin {A} (e : A) :
  forall (l1 l2 pre post : list A),
    (l1 ++ l2 = pre ++ e :: post)%list -> ~ In e l1 ->
    exists pre', pre = (l1 ++ pre')%list.
Proof.
  induction l1 as [|a l1 IH]; intros l2 pre post Heq Hnot.
  - now exists pre.
  - destruct pre as [|a' pre]; simpl in Heq.
    + injection Heq as -> _. exfalso. apply Hnot. now left.
    + injection Heq as <- Heq.
      destruct (IH _ _ _ Heq) as [pre' ->]; [|now exists pre'].
      intros Hin. apply Hnot. now right.
Qed.

Lemma prelude_notConversion (l : list event) :
  Forall preludeEvent l -> Forall notConversion l.
Proof.
  apply Forall_impl. intros [line|line err|command|path|path]; simpl; tauto.
Qed.

Lemma notConversion_decorate (mountPoint : string) (fs : Fs.node) :
  Forall notConversion (events (decorate host mountPoint fs)).
Proof.
  revert fs. change (emits notConversion (decorate host mountPoint)).
  apply emits_bind; [apply emits_existsSync|]. intros present.
  apply emits_if; [|apply emits_ret].
  apply emits_bind; [now apply emits_execSync|]. intros _.
  now apply emits_consoleLog.
Qed.

Lemma notConversion_cleanup (outputPath : string) (fs : Fs.node) :
  Forall notConversion (events (cleanup host outputPath fs)).
Proof. apply emits_unlinkIfExists. exact I. Qed.

Lemma conversion_not_in (command : string) (l : list event) :
  isConversion command = true -> Forall notConversion l ->
  ~ In (ExecSync command) l.
Proof.
  intros Hc Hl Hin. rewrite Forall_forall in Hl. apply Hl in Hin.
  change (Str.startsWith "hdiutil convert" command = false) in Hin.
  unfold isConversion in Hc. congruence.
Qed.

(** The events of a decoration that ends normally. *)
Lemma decorate_events_ok (mountPoint : string) (fs : Fs.node) :
  res (decorate host mountPoint fs) = Ok tt ->
  events (decorate host mountPoint fs) = [] \/
  events (decorate host mountPoint fs) =
    [ExecSync (linkCommand (Path.join mountPoint "Applications"));
     ConsoleLog "Added Applications symlink"].
Proof.
  unfold decorate, bind, existsSync, execSync, consoleLog, emit.
  cbn [res final events].
  destruct (Fs.stat _ _ _); cbn [negb res final events]; [now left|].
  destruct (tool host _ fs) as [[stdout|] fs']; cbn [res final events];
    [now right | discriminate].
Qed.

Lemma cleanup_events (outputPath : string) (fs : Fs.node) :
  events (cleanup host outputPath fs) = [] \/
  events (cleanup host outputPath fs) = [UnlinkSync (tempDmgPath outputPath)].
Proof.
  unfold cleanup, unlinkIfExists, bind, existsSync, unlinkSync.
  cbn [res final events].
  destruct (Fs.stat _ _ _); cbn [res final events]; [|now left].
  destruct (Fs.locate _ _ _) as [code|p]; cbn [events]; [now left|].
  destruct (Fs.unlink fs p); cbn [events]; [now left | now right].
Qed.

End CommandOrder.

(** X8.  In every run, a conversion command comes only after the mount
    point has been announced and the detach command on it has been run. *)
Theorem conversion_only_after_detach
  (host : Host) (appPath outputPath : string) (fs : Fs.node)
  (pre post : list event) (command : string) :
  events (createDMG host appPath outputPath fs)
  = (pre ++ ExecSync command :: post)%list ->
  isConversion command = true ->
  exists mountPoint,
    In (ConsoleLog ("Mounted at: " ++ mountPoint)) pre /\
    In (ExecSync (detachCommand mountPoint)) pre.
Proof.
  intros Hsplit Hconv.
  assert (Hin : In (ExecSync command)
                   (events (createDMG host appPath outputPath fs))).
  { rewrite Hsplit. apply in_or_app. right. now left. }
  destruct (createDMG_stages host appPath outputPath fs)
    as [[_ Hpre]
       |(dir & appSize & fs1 & pre0 & _ & _ & Hpre & _ & _ & _ & _ & Hev)].
  { exfalso. revert Hin. apply conversion_not_in; [exact Hconv|].
    now apply prelude_notConversion. }
  cbv zeta in Hev. unfold tryFinally in Hev. cbn [events] in Hev.
  set (b := build host appPath outputPath (requiredSizeMB appSize) fs1) in *.
  pose proof (notConversion_cleanup host outputPath (final b)) as Hcl.
  apply prelude_notConversion in Hpre.
  destruct (build_shape host appPath outputPath (requiredSizeMB appSize) fs1)
    as [[Hb _]|[[Hb _]|(mo & mm & fs2 & _ & Hb & _)]];
    cbv zeta in Hb; fold b in Hb.
  - exfalso. revert Hin. apply conversion_not_in; [exact Hconv|].
    rewrite Hev, Hb. apply Forall_app. split; [exact Hpre|].
    apply Forall_app. split; [|exact Hcl]. now repeat constructor.
  - exfalso. revert Hin. apply conversion_not_in; [exact Hconv|].
    rewrite Hev, Hb. apply Forall_app. split; [exact Hpre|].
    apply Forall_app. split; [|exact Hcl]. now repeat constructor.
  - destruct (scope_shape host (Str.trim mm) fs2) as [Hs _].
    cbv zeta in Hs. rewrite Hs in Hb. rewrite Hb in Hev.
    set (d := events (decorate host (Str.trim mm) fs2)) in *.
    set (rest := match res _ with Ok _ => _ | Throw _ => [] end) in *.
    set (head := (pre0 ++
                  [ConsoleLog "Creating temporary DMG...";
                   ExecSync (createCommand host appPath
                               (requiredSizeMB appSize)
                               (tempDmgPath outputPath));
                   ConsoleLog "Mounting DMG to add Applications symlink...";
                   ExecSync (attachCommand (tempDmgPath outputPath));
                   ConsoleLog ("Mounted at: " ++ Str.trim mm)] ++
                  d ++
                  [ConsoleLog "Unmounting...";
                   ExecSync (detachCommand (Str.trim mm))])%list).
    assert (Heq : events (createDMG host appPath outputPath fs) =
                  (head ++ rest ++ events (cleanup host outputPath (final b)))
                  %list).
    { rewrite Hev. unfold head. now rewrite <- !app_assoc. }
    assert (Hhead : Forall notConversion head).
    { unfold head. apply Forall_app. split; [exact Hpre|].
      apply Forall_app. split; [now repeat constructor|].
      apply Forall_app. split; [apply notConversion_decorate|].
      now repeat constructor. }
    rewrite Heq in Hsplit.
    destruct (app_split_notin _ _ _ _ _ Hsplit
                (conversion_not_in _ _ Hconv Hhead)) as [pre' ->].
    exists (Str.trim mm). unfold head. split.
    + apply in_or_app. left. apply in_or_app. right.
      apply in_or_app. left. simpl. tauto.
    + apply in_or_app. left. apply in_or_app. right.
      apply in_or_app. right. apply in_or_app. right. simpl. tauto.
Qed.

Lemma conversion_only_after_detach_witness :
  let o := createDMG (Sim.machine "hdiutil convert") ".build/Code.app"
             ".build/Code.dmg" Sim.disk in
  events o = (firstn 14 (events o) ++
              ExecSync (convertCommand ".build/Code-temp.dmg"
                          ".build/Code.dmg") ::
              skipn 15 (events o))%list /\
  exists mountPoint,
    In (ConsoleLog ("Mounted at: " ++ mountPoint)) (firstn 14 (events o)) /\
    In (ExecSync (detachCommand mountPoint)) (firstn 14 (events o)).
Proof.
  split; [reflexivity|].
  apply (conversion_only_after_detach (Sim.machine "hdiutil convert")
           ".build/Code.app" ".build/Code.dmg" Sim.disk _
           (skipn 15 (events (createDMG (Sim.machine "hdiutil convert")
                                ".build/Code.app" ".build/Code.dmg" Sim.disk)))
           (convertCommand ".build/Code-temp.dmg" ".build/Code.dmg"));
    reflexivity.
Defined.

(** X9.  A run that returns normally has done all of this, in this order:
    the log lines of the plan and the clearing of stale artifacts; create;
    attach; the announcement of the mount point; the link command, unless
    the link was there; detach; convert; the two closing log lines; the
    removal of the staging image, if it is still there. *)
Theorem successful_run_trace
  (host : Host) (appPath outputPath : string) (fs : Fs.node) :
  res (createDMG host appPath outputPath fs) = Ok tt ->
  exists appSize mountPoint pre decorated line post,
    Forall preludeEvent pre /\
    (decorated = [] \/
     decorated =
       [ExecSync (linkCommand (Path.join mountPoint "Applications"));
        ConsoleLog "Added Applications symlink"]) /\
    (post = [] \/ post = [UnlinkSync (tempDmgPath outputPath)]) /\
    events (createDMG host appPath outputPath fs) =
    (pre ++
     [ConsoleLog "Creating temporary DMG...";
      ExecSync (createCommand host appPath (requiredSizeMB appSize)
                  (tempDmgPath outputPath));
      ConsoleLog "Mounting DMG to add Applications symlink...";
      ExecSync (attachCommand (tempDmgPath outputPath));
      ConsoleLog ("Mounted at: " ++ mountPoint)] ++
     decorated ++
     [ConsoleLog "Unmounting...";
      ExecSync (detachCommand mountPoint);
      ConsoleLog "Converting to compressed DMG...";
      ExecSync (convertCommand (tempDmgPath outputPath) outputPath);
      ConsoleLog ("DMG created successfully: " ++ outputPath);
      ConsoleLog line] ++
     post)%list.
Proof.
  intros Hok.
  destruct (success_stages host _ _ _ Hok)
    as (appSize & fs1 & pre & Hpre & Hb & _ & _ & Hev).
  cbv zeta in *.
  destruct (build_shape host appPath outputPath (requiredSizeMB appSize) fs1)
    as [[_ Hr]|[[_ [Hr|Hr]]|(mo & mm & fs2 & _ & Hbev & Hr & _)]];
    cbv zeta in *; try congruence.
  rewrite Hr in Hb.
  destruct (scope_shape host (Str.trim mm) fs2) as (Hsev & _ & Hsres).
  cbv zeta in *.
  destruct (res (tryFinally _ _ fs2)) as [[]|e] eqn:Hs; [|discriminate].
  assert (Hd : res (decorate host (Str.trim mm) fs2) = Ok tt).
  { destruct (fst (tool host _ _)); [now symmetry | discriminate]. }
  destruct (convert_shape host (tempDmgPath outputPath) outputPath
              (final (tryFinally (decorate host (Str.trim mm))
                        (detach host (Str.trim mm)) fs2)))
    as [(rest & Hcev & _ & Hrest) _].
  cbv zeta in *. destruct (Hrest Hb) as [line ->].
  exists appSize, (Str.trim mm), pre,
    (events (decorate host (Str.trim mm) fs2)), line,
    (events (cleanup host outputPath
               (final (build host appPath outputPath
                         (requiredSizeMB appSize) fs1)))).
  split; [exact Hpre|]. split; [now apply decorate_events_ok|].
  split; [apply cleanup_events|].
  rewrite Hev, Hbev, Hsev, Hcev. rewrite <- !app_assoc. reflexivity.
Qed.

Lemma successful_run_trace_witness :
  let o := createDMG (Sim.machine "") ".build/Code.app" ".build/Code.dmg"
             Sim.disk in
  res o = Ok tt /\
  exists appSize mountPoint pre decorated line post,
    Forall preludeEvent pre /\
    (decorated = [] \/
     decorated =
       [ExecSync (linkCommand (Path.join mountPoint "Applications"));
        ConsoleLog "Added Applications symlink"]) /\
    (post = [] \/ post = [UnlinkSync (tempDmgPath ".build/Code.dmg")]) /\
    events o =
    (pre ++
     [ConsoleLog "Creating temporary DMG...";
      ExecSync (createCommand (Sim.machine "") ".build/Code.app"
                  (requiredSizeMB appSize) (tempDmgPath ".build/Code.dmg"));
      ConsoleLog "Mounting DMG to add Applications symlink...";
      ExecSync (attachCommand (tempDmgPath ".build/Code.dmg"));
      ConsoleLog ("Mounted at: " ++ mountPoint)] ++
     decorated ++
     [ConsoleLog "Unmounting...";
      ExecSync (detachCommand mountPoint);
      ConsoleLog "Converting to compressed DMG...";
      ExecSync (convertCommand (tempDmgPath ".build/Code.dmg")
                  ".build/Code.dmg");
      ConsoleLog ("DMG created successfully: " ++ ".build/Code.dmg");
      ConsoleLog line] ++
     post)%list.
Proof.
  split; [reflexivity|].
  apply (successful_run_trace (Sim.machine "")). reflexivity.
Defined.

(** X10.  No command is run before the stale artifacts are cleared: a run
    in which any command is run is, after log lines, removals and at most
    the creation of the output directory, the run of the guarded body
    from a file system with nothing at the staging path and nothing at
    the output path. *)
Theorem commands_run_after_clearing
  (host : Host) (appPath outputPath : string) (fs : Fs.node)
  (command : string) :
  In (ExecSync command) (events (createDMG host appPath outputPath fs)) ->
  exists appSize fs1 pre,
    let guarded :=
      tryFinally (build host appPath outputPath (requiredSizeMB appSize))
                 (cleanup host outputPath) fs1 in
    Forall preludeEvent pre /\
    ~ In (ExecSync command) pre /\
    Fs.stat (cwd host) fs1 (tempDmgPath outputPath) = None /\
    Fs.stat (cwd host) fs1 outputPath = None /\
    res (createDMG host appPath outputPath fs) = res guarded /\
    final (createDMG host appPath outputPath fs) = final guarded /\
    events (createDMG host appPath outputPath fs)
    = (pre ++ events guarded)%list.
Proof.
  intros Hin.
  destruct (createDMG_stages host appPath outputPath fs)
    as [[_ Hpre]
       |(dir & appSize & fs1 & pre & _ & _ & Hpre & Ht & Ho & Hr & Hf & Hev)].
  - rewrite Forall_forall in Hpre. apply Hpre in Hin. destruct Hin.
  - exists appSize, fs1, pre. cbv zeta in *. repeat split; auto.
    intros Hpre'. rewrite Forall_forall in Hpre. now apply Hpre in Hpre'.
Qed.

Lemma commands_run_after_clearing_witness :
  let host := Sim.machine "hdiutil create" in
  let o := createDMG host ".build/Code.app" ".build/Code.dmg" Sim.disk in
  Fs.stat (cwd host) Sim.disk ".build/Code-temp.dmg" = Some (Fs.File 456) /\
  exists appSize fs1 pre,
    let guarded :=
      tryFinally (build host ".build/Code.app" ".build/Code.dmg"
                    (requiredSizeMB appSize))
                 (cleanup host ".build/Code.dmg") fs1 in
    Forall preludeEvent pre /\
    ~ In (ExecSync (createCommand host ".build/Code.app" 850
                      ".build/Code-temp.dmg")) pre /\
    Fs.stat (cwd host) fs1 (tempDmgPath ".build/Code.dmg") = None /\
    Fs.stat (cwd host) fs1 ".build/Code.dmg" = None /\
    res o = res guarded /\ final o = final guarded /\
    events o = (pre ++ events guarded)%list.
Proof.
  split; [reflexivity|].
  apply (commands_run_after_clearing (Sim.machine "hdiutil create")).
  vm_compute. do 5 right. left. reflexivity.
Defined.

(** ** The measured size and the files of the bundle *)

Section SizeBounds.

Import Fs.

(** What one iteration of the loop adds: the result of the recursive call
    for a directory, the reported size for anything else. *)
Lemma addEntry_inr (recur : node -> errno * list string + N)
  (total : N) (entry : string * node) (next : N) :
  addEntry recur (inr total) entry = inr next ->
  exists added,
    next = Double.round (total + added) /\
    ((isDirectory (snd entry) = true /\ recur (snd entry) = inr added) \/
     (exists sz, snd entry = File sz /\ added = Double.round sz)).
Proof.
  unfold addEntry, Double.add. destruct entry as [name stats]. cbn [fst snd].
  destruct stats as [sz|dsz des|]; cbn [statError isDirectory size].
  - intros [= <-]. exists (Double.round sz). split; [reflexivity|].
    right. now exists sz.
  - destruct (recur (Dir dsz des)) as [[code below]|sub]; [discriminate|].
    intros [= <-]. exists sub. split; [reflexivity|]. left. now split.
  - discriminate.
Qed.

Lemma fold_addEntry_inl (recur : node -> errno * list string + N)
  (files : list (string * node)) (e : errno * list string) :
  fold_left (addEntry recur) files (inl e) = inl e.
Proof. induction files as [|entry files IH]; [reflexivity | exact IH]. Qed.

(** The running total is a double at every step. *)
Lemma fold_addEntry_exact (recur : node -> errno * list string + N) :
  forall files total measured,
    fold_left (addEntry recur) files (inr total) = inr measured ->
    exact total -> exact measured.
Proof.
  induction files as [|entry files IH]; intros total measured H Hexact.
  - now injection H as <-.
  - cbn [fold_left] in H.
    destruct (addEntry recur (inr total) entry) as [e|next] eqn:Hstep.
    + now rewrite fold_addEntry_inl in H.
    + apply (IH _ _ H).
      destruct (addEntry_inr _ _ _ _ Hstep) as (added & -> & _).
      apply round_idempotent.
Qed.

Lemma getDirectorySize_exact (t : node) (measured : N) :
  getDirectorySize t = inr measured -> exact measured.
Proof.
  destruct t as [sz|sz files|]; try discriminate.
  intros H. apply (fold_addEntry_exact _ _ _ _ H). apply round_0.
Qed.

(** Adding two doubles gives at least each of them. *)
Lemma add_exact_ge (x y : N) :
  exact x -> exact y ->
  (x <= Double.round (x + y) /\ y <= Double.round (x + y))%N.
Proof.
  unfold exact. intros Hx Hy. split.
  - rewrite <- Hx at 1. apply round_monotone. lia.
  - rewrite <- Hy at 1. apply round_monotone. lia.
Qed.

(** The result of the loop is at least what it started from and at least
    what each entry added. *)
Lemma fold_addEntry_ge :
  forall files total measured,
    fold_left (addEntry getDirectorySize) files (inr total) = inr measured ->
    exact total ->
    (total <= measured)%N /\
    forall entry, In entry files ->
      match snd entry with
      | File sz => (Double.round sz <= measured)%N
      | Dir _ _ =>
          exists sub, getDirectorySize (snd entry) = inr sub /\
                      (sub <= measured)%N
      | Dangling => False
      end.
Proof.
  induction files as [|entry files IH]; intros total measured H Hexact.
  - injection H as <-. split; [lia | intros entry []].
  - cbn [fold_left] in H.
    destruct (addEntry getDirectorySize (inr total) entry) as [e|next]
      eqn:Hstep; [now rewrite fold_addEntry_inl in H|].
    destruct (addEntry_inr _ _ _ _ Hstep) as (added & Hnext & Hadded).
    assert (Hexact' : exact added).
    { destruct Hadded as [[_ Hsub]|(sz & _ & ->)].
      - exact (getDirectorySize_exact _ _ Hsub).
      - apply round_idempotent. }
    destruct (add_exact_ge total added Hexact Hexact') as [Hge1 Hge2].
    rewrite <- Hnext in Hge1, Hge2.
    destruct (IH next measured H) as [Hle Hrest].
    { rewrite Hnext. apply round_idempotent. }
    split; [lia|].
    intros entry' [<-|Hin]; [|now apply Hrest].
    destruct Hadded as [[Hdir Hsub]|(sz & Hfile & ->)].
    + destruct (snd entry) as [sz|dsz des|]; try discriminate.
      exists added. split; [exact Hsub | lia].
    + rewrite Hfile. lia.
Qed.

Lemma find_In (name : string) (files : list (string * node)) (child : node) :
  find name files = Some child -> exists n, In (n, child) files.
Proof.
  induction files as [|[n t] files IH]; simpl; [discriminate|].
  destruct (String.eqb n name).
  - intros [= ->]. exists n. now left.
  - intros H. destruct (IH H) as [n' Hin]. exists n'. now right.
Qed.

(** The measured size of a tree is at least the reported size of each file
    in it. *)
Lemma lookup_file_le :
  forall p t s measured,
    getDirectorySize t = inr measured ->
    lookup t p = Some (File s) ->
    (Double.round s <= measured)%N.
Proof.
  induction p as [|c p IH]; intros t s measured Hm H; simpl in H.
  - injection H as ->. discriminate.
  - destruct t as [|sz files|]; try discriminate.
    destruct (find c files) as [child|] eqn:Hc; [|discriminate].
    destruct (find_In _ _ _ Hc) as [n Hin].
    cbn [getDirectorySize] in Hm.
    destruct (fold_addEntry_ge _ _ _ Hm round_0) as [_ Hentries].
    specialize (Hentries _ Hin). cbn [snd] in Hentries.
    destruct child as [fsz|dsz des|].
    + destruct p; [|discriminate]. simpl in H. injection H as ->.
      exact Hentries.
    + destruct Hentries as (sub & Hsub & Hle).
      specialize (IH _ _ _ Hsub H). lia.
    + destruct Hentries.
Qed.

End SizeBounds.

(** X13.  The measured size of a bundle is at least the size [fs.statSync]
    reports for each file found in it, at any depth, and the planned
    capacity exceeds every such file by the whole margin of 50 MB.  The
    reported size of a file of 2^53 bytes or fewer is its size. *)
Theorem capacity_covers_every_file
  (dir : Fs.node) (path : list string) (size measured : N) :
  Fs.getDirectorySize dir = inr measured ->
  Fs.lookup dir path = Some (Fs.File size) ->
  ((Fs.size (Fs.File size) <= measured)%N /\
   (Z.of_N (Fs.size (Fs.File size)) + 50 * 1048576
    <= requiredSizeMB measured * 1048576)%Z) /\
  ((size <= 2 ^ 53)%N ->
   (size <= measured)%N /\
   (Z.of_N size + 50 * 1048576 <= requiredSizeMB measured * 1048576)%Z).
Proof.
  intros Hm Hfile.
  pose proof (lookup_file_le _ _ _ _ Hm Hfile) as Hle.
  pose proof (requiredSizeMB_bounds measured) as Hb.
  cbn [Fs.size]. split; [split; [exact Hle | lia]|].
  intros Hsmall. rewrite (round_small size Hsmall) in Hle.
  split; [exact Hle | lia].
Qed.

Lemma capacity_covers_every_file_witness :
  Fs.getDirectorySize Sim.bundle = inr 838860800%N /\
  Fs.lookup Sim.bundle ["Contents"; "MacOS"; "Code"]
    = Some (Fs.File 838000000) /\
  (838000000 <= 838860800)%N /\
  (Z.of_N 838000000 + 50 * 1048576 <= requiredSizeMB 838860800 * 1048576)%Z.
Proof.
  split; [reflexivity|]. split; [reflexivity|].
  apply (capacity_covers_every_file Sim.bundle ["Contents"; "MacOS"; "Code"]
           838000000 838860800); try reflexivity.
  vm_compute. discriminate.
Defined.
